(** * contrib-stats: per-author change statistics

    A shallow embedding of [src/main.py] and the properties of its
    aggregation engine: configuration fallback, the change collector,
    the aggregation table and the output encoder.

    Python values are modelled as follows.
    - [int] is [Z] (unbounded), [str] is [string], [bool] is [bool];
    - a [dict] with string keys is an insertion-ordered association list
      with at most one entry per key ([dict_get], [dict_set]); the order
      of the entries is the order Python iterates them in;
    - [None] is [option]'s [None];
    - the file system, [toml.loads], the environment, the GitHub client
      and the clock are the fields of a [World];
    - the console, the output file, the number of clock readings and the
      global [silent] flag are fields of an explicit [State] threaded by
      the monad [M];
    - [exit(n)] and an uncaught exception end the run with an [Outcome].

    The definitions come first, in the order of the source; the lemmas
    and the claims C1 to C10 follow. *)

From Stdlib Require Import Ascii.
From stdpp Require Import gmap strings list fin_maps pretty.

Set Warnings "-register-all".

Open Scope Z_scope.
Open Scope string_scope.

(** ** Python dictionaries with string keys *)

Abbreviation dict V := (list (string * V)) (only parsing).

(** [d[k]]; [None] stands for [KeyError]. *)
Fixpoint dict_get {V : Type} (d : dict V) (k : string) : option V :=
  match d with
  | [] => None
  | (k', v) :: d' => if String.eqb k' k then Some v else dict_get d' k
  end.

(** [d[k] = v]: an existing key keeps its position, a new key goes last. *)
Fixpoint dict_set {V : Type} (d : dict V) (k : string) (v : V) : dict V :=
  match d with
  | [] => [(k, v)]
  | (k', v') :: d' =>
      if String.eqb k' k then (k', v) :: d' else (k', v') :: dict_set d' k v
  end.

Definition keys {V : Type} (d : dict V) : list string := d.*1.

(** [d.items()] is the association list itself. *)
Definition items {V : Type} (d : dict V) : list (string * V) := d.

(** The mapping a dictionary denotes: Python's [==] on dictionaries
    compares these and ignores the insertion order. *)
Definition mapping {V : Type} (d : dict V) : gmap string V := list_to_map d.

(** ** The two helpers of [main.py] *)

(** [trygetitem(tables, item, default)]: the first table that has the
    key decides; a [KeyError] moves on to the next table. *)
Fixpoint trygetitem {V : Type} (tables : list (dict V)) (item : string)
    (default : V) : V :=
  match tables with
  | [] => default
  | table :: rest =>
      match dict_get table item with
      | Some v => v
      | None => trygetitem rest item default
      end
  end.

(** [addornewitem(table, item, value)]: [table[item] += value], and
    [table[item] = value] when the read raises [KeyError]. *)
Definition addornewitem (table : dict Z) (item : string) (value : Z) : dict Z :=
  match dict_get table item with
  | Some old => dict_set table item (old + value)
  | None => dict_set table item value
  end.

(** ** [str.split] and the extension of a file name *)

(** [s.split(sep)] for a separator of one character. *)
Fixpoint split (sep : Ascii.ascii) (s : string) : list string :=
  match s with
  | EmptyString => [EmptyString]
  | String c s' =>
      if Ascii.eqb c sep then EmptyString :: split sep s'
      else match split sep s' with
           | [] => [String c EmptyString]
           | w :: ws => String c w :: ws
           end
  end.

(** [l[-1]]; [None] stands for [IndexError]. *)
Definition last_item (l : list string) : option string := last l.

(** [filename.split(".")[-1]]; [split] never returns the empty list
    ([split_last_is_Some]), so the [IndexError] branch is dead. *)
Definition extension (filename : string) : string :=
  default EmptyString (last_item (split "."%char filename)).

(** ** Values of the input document and of the remote API *)

(** A point in time, as seconds since the Unix epoch. *)
Abbreviation datetime := Z (only parsing).

(** [datetime.fromtimestamp(0)]. *)
Definition epoch : datetime := 0.

(** What [toml.loads] puts into a table ([Any] in the source): strings,
    integers, booleans, times, arrays and tables. Floats are left out;
    no key the program reads is meant to hold one. *)
Inductive Value : Type :=
  | VStr (s : string)
  | VInt (n : Z)
  | VBool (b : bool)
  | VDate (t : datetime)
  | VList (l : list Value)
  | VTable (t : list (string * Value)).

(** [x in l] for a string [x] and a Python list [l]: some element
    compares equal to [x]; a string equals only an equal string. *)
Definition str_eq_value (x : string) (v : Value) : bool :=
  match v with
  | VStr s => String.eqb x s
  | _ => false
  end.

Definition str_in (x : string) (l : list Value) : bool :=
  existsb (str_eq_value x) l.

(** PyGithub's objects, reduced to what [main] reads. *)
Record File := { filename : string; changes : Z }.
Record NamedUser := { name : option string }.
Record Commit := { author : option NamedUser; files : list File }.
Record Repository := { get_commits : datetime → datetime → list Commit }.

(** [get_repo] answers [None] where PyGithub raises [GithubException]. *)
Record Github := { get_repo : string → option Repository }.

(** Everything outside the process. *)
Record World := {
  (** [open(path, "r")] and [read()]: the text, or the [OSError]. *)
  open_read : string → string + string;
  (** [open(path, "w+")]: [None] when it opens, else the [OSError]. *)
  open_write : string → option string;
  (** [toml.loads]: the top-level table, or the [TomlDecodeError]. *)
  toml_loads : string → dict Value + string;
  (** [os.environ] when the process starts. *)
  environ : dict string;
  (** [load_dotenv(path)] as a function on the environment. *)
  load_dotenv : Value → dict string → dict string;
  (** [Github()] for [None], [Github(auth=Auth.Token(t))] for [Some t]. *)
  github_client : option string → Github;
  (** what the [n]-th call of [datetime.now()] returns. *)
  time_at : nat → datetime
}.

(** [argparse]'s namespace. *)
Record Args := { args_silent : bool; args_input : string; args_output : string }.

(** ** Effects *)

(** The aggregation table: label to author to total. *)
Abbreviation Table := (dict (dict Z)) (only parsing).

(** What the rich console receives. *)
Inductive Message : Type :=
  | Line (text : string) (style : option string)
  | Object (o : Table)
  | MoveToColumn (x : Z).

Inductive Encoder : Type := toml_dumps | json_dumps | repr.

(** What the output file receives: one [write] of an encoded table, or
    one [csv.writer] row. *)
Inductive Chunk : Type :=
  | Text (enc : Encoder) (o : Table)
  | Row (fields : list string).

Record State := {
  silent : bool;
  console : list Message;
  written : list Chunk;
  clock : nat
}.

Definition initial : State :=
  {| silent := false; console := []; written := []; clock := 0 |}.

Inductive Exception : Type :=
  | KeyError (key : string)
  | TypeError.

Inductive Outcome : Type :=
  | Exit (code : Z)
  | Uncaught (e : Exception).

(** The status the operating system sees: an uncaught exception makes
    the interpreter leave with 1. *)
Definition exit_status (o : Outcome) : Z :=
  match o with
  | Exit code => code
  | Uncaught _ => 1
  end.

Inductive Result (A : Type) : Type :=
  | Ok (a : A)
  | Stop (o : Outcome).
Arguments Ok {A} a.
Arguments Stop {A} o.

Definition M (A : Type) : Type := State → State * Result A.

Definition ret {A : Type} (a : A) : M A := λ s, (s, Ok a).

Definition bind {A B : Type} (m : M A) (k : A → M B) : M B :=
  λ s, match m s with
       | (s', Ok a) => k a s'
       | (s', Stop o) => (s', Stop o)
       end.

Notation "'do' x <- m ; k" := (bind m (λ x, k))
  (at level 10, x name, m at level 100, k at level 200).
Notation "'do' ' p <- m ; k" := (bind m (λ x, match x with p => k end))
  (at level 10, p pattern, m at level 100, k at level 200).
Notation "m ;; k" := (bind m (λ _, k))
  (at level 100, k at level 200, right associativity).

Definition exit {A : Type} (code : Z) : M A := λ s, (s, Stop (Exit code)).

Definition raise {A : Type} (e : Exception) : M A := λ s, (s, Stop (Uncaught e)).

(** A [for] loop whose body updates the loop-carried variables. *)
Fixpoint foldM {A B : Type} (body : B → A → M B) (l : list A) (b : B) : M B :=
  match l with
  | [] => ret b
  | x :: l' => do b' <- body b x; foldM body l' b'
  end.

(** [console.print] behind the global flag. *)
Definition emit (msgs : list Message) (s : State) : State :=
  if silent s then s
  else {| silent := silent s; console := console s ++ msgs;
          written := written s; clock := clock s |}.

Definition print (m : Message) : M unit := λ s, (emit [m] s, Ok tt).

Definition set_silent (b : bool) : M unit :=
  λ s, ({| silent := b; console := console s;
           written := written s; clock := clock s |}, Ok tt).

Definition write (c : Chunk) : M unit :=
  λ s, ({| silent := silent s; console := console s;
           written := written s ++ [c]; clock := clock s |}, Ok tt).

Definition datetime_now (w : World) : M datetime :=
  λ s, ({| silent := silent s; console := console s;
           written := written s; clock := S (clock s) |},
        Ok (time_at w (clock s))).

(** The uses the code makes of a configuration value fix its type: a
    table where it is subscripted by a key, a list where it is iterated,
    a string for a label or a repository name, a time for a bound. A
    document that breaks this leaves the fragment modelled here; the run
    is recorded as ending in [TypeError]. *)
Definition as_table (v : Value) : M (dict Value) :=
  match v with VTable t => ret t | _ => raise TypeError end.

Definition as_list (v : Value) : M (list Value) :=
  match v with VList l => ret l | _ => raise TypeError end.

Definition as_str (v : Value) : M string :=
  match v with VStr s => ret s | _ => raise TypeError end.

Definition as_date (v : Value) : M datetime :=
  match v with VDate t => ret t | _ => raise TypeError end.

(** ** The program *)

Definition nl : string := String (ascii_of_nat 10) EmptyString.
Definition dq : string := String (ascii_of_nat 34) EmptyString.

Definition DEFAULT_INPUT : string :=
  nl +:+
  "env = " +:+ dq +:+ ".env" +:+ dq +:+ nl +:+
  nl +:+
  "[default]" +:+ nl +:+
  nl +:+
  "[[stats]]" +:+ nl +:+
  "label = " +:+ dq +:+ "vencord" +:+ dq +:+ nl +:+
  "repos = [ " +:+ dq +:+ "Vendicated/Vencord" +:+ dq +:+ " ]" +:+ nl +:+
  "filetypes = [ " +:+ dq +:+ "ts" +:+ dq +:+ " ]" +:+ nl +:+
  "start_date = 2024-01-01T00:00:00Z" +:+ nl +:+
  "end_date = 2024-02-01T00:00:00Z" +:+ nl.

(** The style of every warning. *)
Definition alert : option string := Some "bold white on red".

Inductive OutputFile : Type :=
  | Stdout
  | Opened (path : string).

(** [open_files(args)]: the input is returned as its text. *)
Definition open_files (w : World) (args : Args) : M (string * OutputFile) :=
  do input_file <-
    (if String.eqb (args_input args) "-" then
       print (Line "no input file provided, using default!" alert) ;;
       ret DEFAULT_INPUT
     else
       match open_read w (args_input args) with
       | inl text => ret text
       | inr e =>
           print (Line ("could not open input file: " +:+ e) alert) ;;
           exit 1
       end);
  do output_file <-
    (if String.eqb (args_output args) "-" then ret Stdout
     else
       match open_write w (args_output args) with
       | None => ret (Opened (args_output args))
       | Some e =>
           print (Line ("could not open output file: " +:+ e) alert) ;;
           exit 2
       end);
  ret (input_file, output_file).

(** [get_github()], reading the environment it is given. *)
Definition get_github (w : World) (env : dict string) : M Github :=
  match dict_get env "GITHUB_AUTH_TOKEN" with
  | None =>
      print (Line "using no api token is not recomended, you will get ratelimited!"
               alert) ;;
      ret (github_client w None)
  | Some github_token => ret (github_client w (Some github_token))
  end.

(** [str(n)] for an [int]. *)
Definition str (n : Z) : string := pretty n.

Definition print_filechange (filename author : string) (changes : Z) : M unit :=
  print (Line ("file '" +:+ filename +:+ "' by '" +:+ author +:+ "' with "
               +:+ str changes +:+ " changes") None).

Definition filetype_check (output_filename : string) (stats_count : nat) : M unit :=
  if String.eqb output_filename "-" then ret tt
  else
    let extension := extension output_filename in
    (if String.eqb extension "csv" && bool_decide (1 < stats_count)%nat then
       print (Line "only the last 'stats' will make it to the output!" alert)
     else ret tt) ;;
    (if negb (bool_decide (extension ∈ ["toml"; "json"; "csv"])) then
       print (Line "unsupported filetype, you will get a python object output!"
                alert)
     else ret tt).

(** [write_output(output, output_file, output_filename, first_stat)];
    the one output file of a run is the [written] field of the state. *)
Definition write_output (output : Table) (output_file : OutputFile)
    (output_filename : string) (first_stat : string) : M unit :=
  let extension := extension output_filename in
  if String.eqb extension "toml" then write (Text toml_dumps output)
  else if String.eqb extension "json" then write (Text json_dumps output)
  else if String.eqb extension "csv" then
    write (Row ["user"; "contrib"]) ;;
    match dict_get output first_stat with
    | None => raise (KeyError first_stat)
    | Some tally =>
        foldM (λ _ '(key, val), write (Row [key; str val])) (items tally) tt
    end
  else write (Text repr output).

(** [handle_signal]: the handler installed for [SIGINT]. *)
Definition handle_signal : M unit :=
  (λ s, ({| silent := silent s; console := console s ++ [MoveToColumn 0];
            written := written s; clock := clock s |}, Ok tt)) ;;
  print (Line "caught ^C, exiting gracefully!" alert) ;;
  exit 0.

(** The body of [for file in commit.files] (lines 278-288). *)
Definition process_file (filetypes : list Value) (author_name : string)
    (authors : dict Z) (file : File) : M (dict Z) :=
  if negb (str_in (extension (filename file)) filetypes) then ret authors
  else
    print_filechange (filename file) author_name (changes file) ;;
    ret (addornewitem authors author_name (changes file)).

(** The body of [for commit in repo.get_commits(...)] (lines 271-288). *)
Definition process_commit (filetypes : list Value) (authors : dict Z)
    (commit : Commit) : M (dict Z) :=
  match author commit with
  | None => ret authors
  | Some user =>
      match name user with
      | None => ret authors
      | Some author_name =>
          foldM (process_file filetypes author_name) (files commit) authors
      end
  end.

(** The body of [for repo_str in repos] (lines 263-288). *)
Definition process_repo (github : Github) (filetypes : list Value)
    (start end_ : datetime) (authors : dict Z) (repo : Value) : M (dict Z) :=
  do repo_str <- as_str repo;
  print (Line ("[bold blue]processing repo:[/bold blue] " +:+ repo_str) None) ;;
  do repo <-
    match get_repo github repo_str with
    | Some r => ret r
    | None => print (Line ("unable to get " +:+ repo_str) alert) ;; exit 4
    end;
  foldM (process_commit filetypes) (get_commits repo start end_) authors.

(** A stat job: the five resolved variables of one loop iteration. *)
Record StatJob := {
  job_label : string;
  job_repos : list Value;
  job_filetypes : list Value;
  job_start : datetime;
  job_end : datetime
}.

(** Lines 251-257: every field goes through [trygetitem] on the stat
    group's table and then the default block. [datetime.now()] is an
    argument of the last call, so the clock is read for every group. *)
Definition resolve (w : World) (default : Value) (stat : Value) : M StatJob :=
  do stat_table <- as_table stat;
  do default_table <- as_table default;
  let trytables := [stat_table; default_table] in
  do label <- as_str (trygetitem trytables "label" (VStr EmptyString));
  do repos <- as_list (trygetitem trytables "repos" (VList []));
  do filetypes <- as_list (trygetitem trytables "filetypes" (VList []));
  do start <- as_date (trygetitem trytables "start_date" (VDate epoch));
  do now <- datetime_now w;
  do end_ <- as_date (trygetitem trytables "end_date" (VDate now));
  ret {| job_label := label; job_repos := repos; job_filetypes := filetypes;
         job_start := start; job_end := end_ |}.

(** Lines 261-288: the change collector, from [authors = {}]. *)
Definition collect (github : Github) (job : StatJob) : M (dict Z) :=
  foldM (process_repo github (job_filetypes job) (job_start job) (job_end job))
        (job_repos job) [].

(** One stat group up to its tally (lines 251-288). *)
Definition stat_job (w : World) (github : Github) (default : Value)
    (stat : Value) : M (string * dict Z) :=
  do job <- resolve w default stat;
  print (Line ("[bold blue]processing:[/bold blue] " +:+ job_label job) None) ;;
  do authors <- collect github job;
  ret (job_label job, authors).

(** The body of [for stat in ...] (lines 250-290); the loop carries the
    variable [label] and the table [output]. *)
Definition process_stat (w : World) (github : Github) (default : Value)
    (acc : string * Table) (stat : Value) : M (string * Table) :=
  do '(label, authors) <- stat_job w github default stat;
  ret (label, dict_set acc.2 label authors).

(** The loop over the stat groups, from [label = ""] and [output = {}]. *)
Definition process_stats (w : World) (github : Github) (default : Value)
    (stats : list Value) : M (string * Table) :=
  foldM (process_stat w github default) stats (EmptyString, []).

(** [main] up to the loop (lines 219-248): the output file, the stat
    groups, the client and the default block. *)
Definition prepare (w : World) (args : Args)
    : M (OutputFile * list Value * Github * Value) :=
  set_silent (args_silent args) ;;
  do '(input_file, output_file) <- open_files w args;
  do input_data <-
    match toml_loads w input_file with
    | inl data => ret data
    | inr e => print (Line ("could not decode toml: " +:+ e) alert) ;; exit 3
    end;
  do stats <- as_list (trygetitem [input_data] "stats" (VList []));
  filetype_check (args_output args) (length stats) ;;
  let env :=
    match dict_get input_data "env" with
    | Some path => load_dotenv w path (environ w)
    | None => environ w
    end in
  do github <- get_github w env;
  let default := trygetitem [input_data] "default" (VTable []) in
  print (Line "[bold]starting![/bold]" None) ;;
  ret (output_file, stats, github, default).

(** [main] up to the end of the loop (lines 219-290): the output file,
    the last label and the aggregation table. *)
Definition aggregate (w : World) (args : Args) : M (OutputFile * string * Table) :=
  do '(output_file, stats, github, default) <- prepare w args;
  do '(label, output) <- process_stats w github default stats;
  ret (output_file, label, output).

(** [main()]: the rest (lines 292-306) reports and writes the table. *)
Definition main (w : World) (args : Args) : M unit :=
  do '(output_file, label, output) <- aggregate w args;
  print (Line "[bold]done![/bold] output:" None) ;;
  print (Object output) ;;
  write_output output output_file (args_output args) label.

(** The script: [main()] then [exit(0)], from the initial state. *)
Definition run (w : World) (args : Args) : State * Outcome :=
  match (main w args ;; exit 0) initial with
  | (s, Ok tt) => (s, Exit 0)
  | (s, Stop o) => (s, o)
  end.

(** ** Vocabulary of the properties *)

(** [sep.join(l)]. *)
Fixpoint join (sep : string) (l : list string) : string :=
  match l with
  | [] => EmptyString
  | [x] => x
  | x :: l' => x +:+ sep +:+ join sep l'
  end.

Fixpoint has_char (c : Ascii.ascii) (s : string) : bool :=
  match s with
  | EmptyString => false
  | String c' s' => Ascii.eqb c' c || has_char c s'
  end.

(** The author a commit is attributed to, if it has one with a name. *)
Definition author_name (c : Commit) : option string :=
  match author c with
  | Some user => name user
  | None => None
  end.

(** Whether a file passes the extension filter. *)
Definition counted (filetypes : list Value) (f : File) : bool :=
  str_in (extension (filename f)) filetypes.

(** The (author, changes) pairs the collector adds up, in the order it
    meets them. *)
Definition commit_pairs (filetypes : list Value) (c : Commit) : list (string * Z) :=
  match author_name c with
  | Some a => (λ f, (a, changes f)) <$> filter (λ f, counted filetypes f) (files c)
  | None => []
  end.

Definition pairs (filetypes : list Value) (commits : list Commit) : list (string * Z) :=
  commits ≫= commit_pairs filetypes.

Definition tally_step (t : dict Z) (p : string * Z) : dict Z :=
  addornewitem t p.1 p.2.

Definition accumulate (ps : list (string * Z)) (t : dict Z) : dict Z :=
  foldl tally_step t ps.

(** The repositories a list of names resolves to, when every name is a
    string the client can resolve. *)
Definition repositories (github : Github) (repos : list Value)
    : option (list Repository) :=
  mapM (λ v, match v with VStr r => get_repo github r | _ => None end) repos.

(** The commits of a job's window, repository after repository. *)
Definition window (job : StatJob) (rs : list Repository) : list Commit :=
  r ← rs; get_commits r (job_start job) (job_end job).

Definition sumZ (l : list Z) : Z := foldr Z.add 0 l.

(** The entry of an author credited with [vs]: none when nothing is
    credited, else the sum. *)
Definition total (vs : list Z) : option Z :=
  match vs with
  | [] => None
  | _ => Some (sumZ vs)
  end.

(** The changed-line counts an author is credited with: every file
    with a configured extension, of every commit of that author. *)
Definition credited (filetypes : list Value) (commits : list Commit)
    (a : string) : list Z :=
  c ← filter (λ c, author_name c = Some a) commits;
  f ← filter (λ f, counted filetypes f) (files c);
  [changes f].

(** The field resolution rule, in the words of the specification:
    the job's own table, then the default block, then the constant. *)
Definition fallback (stat default : dict Value) (field : string)
    (constant : Value) : Value :=
  match dict_get stat field with
  | Some v => v
  | None =>
      match dict_get default field with
      | Some v => v
      | None => constant
      end
  end.

(** The CSV rows of a tally. *)
Definition csv_rows (tally : dict Z) : list Chunk :=
  Row ["user"; "contrib"] :: ((λ e, Row [e.1; str e.2]) <$> items tally).

(** The failure classes of a run. *)
Definition input_fails (w : World) (args : Args) : Prop :=
  args_input args ≠ "-" ∧ ∃ e, open_read w (args_input args) = inr e.

Definition output_fails (w : World) (args : Args) : Prop :=
  args_output args ≠ "-" ∧ ∃ e, open_write w (args_output args) = Some e.

(** The text [main] hands to [toml.loads] when the input opens. *)
Definition input_text (w : World) (args : Args) : string :=
  if String.eqb (args_input args) "-" then DEFAULT_INPUT
  else match open_read w (args_input args) with
       | inl text => text
       | inr _ => EmptyString
       end.

Definition parse_fails (w : World) (args : Args) : Prop :=
  ∃ e, toml_loads w (input_text w args) = inr e.

(** What a computation leaves alone when it neither writes to the
    output file nor sets the flag: the flag, the file, and under the
    flag the console. *)
Definition calm (s s' : State) : Prop :=
  silent s' = silent s ∧ written s' = written s ∧
  (silent s = true → console s' = console s).

(** [within E m]: [m] is calm and stops only with outcomes of [E]. *)
Definition within {A : Type} (E : Outcome → Prop) (m : M A) : Prop :=
  ∀ s, calm s (m s).1 ∧ ∀ o, (m s).2 = Stop o → E o.

(** The outcomes the loop over the stat groups can stop with: 4 when
    the client cannot resolve some name, or a value of the wrong type. *)
Definition loop_stop (github : Github) (o : Outcome) : Prop :=
  (o = Exit 4 ∧ ∃ r, get_repo github r = None) ∨ o = Uncaught TypeError.

Definition never (o : Outcome) : Prop := False.

(** Two states that differ at most in the flag and the console. *)
Definition akin (s1 s2 : State) : Prop :=
  written s1 = written s2 ∧ clock s1 = clock s2.

(** Two computations that neither the flag nor the console tells apart. *)
Definition similar {A : Type} (m1 m2 : M A) : Prop :=
  ∀ s1 s2, akin s1 s2 → akin (m1 s1).1 (m2 s2).1 ∧ (m1 s1).2 = (m2 s2).2.

(** The label a stat group resolves to. *)
Definition label_of (default stat : Value) : option string :=
  match stat, default with
  | VTable stat_table, VTable default_table =>
      match trygetitem [stat_table; default_table] "label" (VStr EmptyString) with
      | VStr label => Some label
      | _ => None
      end
  | _, _ => None
  end.

(** What [main] derives from the parsed document before the loop. *)
Definition run_environ (w : World) (document : dict Value) : dict string :=
  match dict_get document "env" with
  | Some path => load_dotenv w path (environ w)
  | None => environ w
  end.

Definition run_github (w : World) (document : dict Value) : Github :=
  github_client w (dict_get (run_environ w document) "GITHUB_AUTH_TOKEN").

Definition run_default (document : dict Value) : Value :=
  trygetitem [document] "default" (VTable []).

Definition run_stats (document : dict Value) : Value :=
  trygetitem [document] "stats" (VList []).

(** The state once [cs] went to the output file. *)
Definition wrote (cs : list Chunk) (s : State) : State :=
  {| silent := silent s; console := console s;
     written := written s ++ cs; clock := clock s |}.

(** The state in which [main] opens its files. *)
Definition started (quiet : bool) : State :=
  {| silent := quiet; console := []; written := []; clock := 0 |}.

(** The encoder a target other than CSV selects. *)
Definition encoder_of (output_filename : string) : Encoder :=
  if String.eqb (extension output_filename) "toml" then toml_dumps
  else if String.eqb (extension output_filename) "json" then json_dumps
  else repr.

(** ** A small world to run the program in *)

Definition commit_by (a : string) (fs : list File) : Commit :=
  {| author := Some {| name := Some a |}; files := fs |}.

Definition demo_commits (repo_name : string) : option (list Commit) :=
  if String.eqb repo_name "o/a" then
    Some [commit_by "alice" [{| filename := "x.ts"; changes := 3 |}]]
  else if String.eqb repo_name "o/b" then
    Some [commit_by "bob" [{| filename := "y.ts"; changes := 5 |}]]
  else if String.eqb repo_name "o/e2e" then
    Some [commit_by "Alice" [{| filename := "x.ts"; changes := 4 |};
                             {| filename := "y.py"; changes := 9 |}];
          {| author := None; files := [{| filename := "z.ts"; changes := 2 |}] |}]
  else None.

Definition demo_github : Github :=
  {| get_repo := λ r, (λ cs, {| get_commits := λ _ _, cs |}) <$> demo_commits r |}.

Definition demo_world (document : dict Value + string) : World :=
  {| open_read := λ path,
       if String.eqb path "missing.toml" then inr "No such file or directory"
       else inl "text";
     open_write := λ path,
       if String.eqb path "/out.csv" then Some "Permission denied" else None;
     toml_loads := λ _, document;
     environ := [("GITHUB_AUTH_TOKEN", "token")];
     load_dotenv := λ _ env, env;
     github_client := λ _, demo_github;
     time_at := λ n, 1700000000 + Z.of_nat n |}.

Definition demo_stat (label repo : string) : Value :=
  VTable [("label", VStr label); ("repos", VList [VStr repo])].

Definition demo_default : Value :=
  VTable [("filetypes", VList [VStr "ts"]); ("start_date", VDate 1704067200)].

(** Jobs ["a"] then ["b"], with tallies [{alice: 3}] and [{bob: 5}]. *)
Definition two_jobs : dict Value :=
  [("default", demo_default);
   ("stats", VList [demo_stat "a" "o/a"; demo_stat "b" "o/b"])].

(** Two jobs that share the label ["a"]. *)
Definition same_label : dict Value :=
  [("default", demo_default);
   ("stats", VList [demo_stat "a" "o/a"; demo_stat "a" "o/b"])].

(** A document without a [stats] key. *)
Definition no_stats : dict Value := [("default", demo_default)].

(** A job that names a repository the client cannot resolve. *)
Definition lost_repo : dict Value :=
  [("default", demo_default);
   ("stats", VList [demo_stat "a" "o/a"; demo_stat "b" "o/gone"])].

Definition demo_args (quiet : bool) (output : string) : Args :=
  {| args_silent := quiet; args_input := "in.toml"; args_output := output |}.

(** The same two repositories, in either order. *)
Definition ab_job : StatJob :=
  {| job_label := "ab"; job_repos := [VStr "o/a"; VStr "o/b"];
     job_filetypes := [VStr "ts"]; job_start := epoch; job_end := 1700000000 |}.

Definition ba_job : StatJob :=
  {| job_label := "ba"; job_repos := [VStr "o/b"; VStr "o/a"];
     job_filetypes := [VStr "ts"]; job_start := epoch; job_end := 1700000000 |}.

Definition e2e_job : StatJob :=
  {| job_label := "e2e"; job_repos := [VStr "o/e2e"];
     job_filetypes := [VStr "ts"]; job_start := epoch; job_end := 1700000000 |}.

(** ** Vocabulary of the further properties *)

(** The elements of [l] not yet in [seen], each added to [seen] where
    it first occurs. *)
Definition seen_after (seen l : list string) : list string :=
  foldl (λ (acc : list string) x,
           if bool_decide (x ∈ acc) then acc else (acc ++ [x])%list) seen l.

(** The distinct elements of a list, in the order of first occurrence. *)
Definition first_seen (l : list string) : list string := seen_after [] l.

(** The state once [msgs] went to the console. *)
Definition say (msgs : list Message) (s : State) : State :=
  {| silent := silent s; console := console s ++ msgs;
     written := written s; clock := clock s |}.

(** The state once the clock was read. *)
Definition tick (s : State) : State :=
  {| silent := silent s; console := console s;
     written := written s; clock := S (clock s) |}.

(** The line [print_filechange] sends for a file of an author. *)
Definition report (a : string) (f : File) : Message :=
  Line ("file '" +:+ filename f +:+ "' by '" +:+ a +:+ "' with "
        +:+ str (changes f) +:+ " changes") None.

(** The lines the collector sends for a commit: one per counted file. *)
Definition commit_lines (filetypes : list Value) (c : Commit) : list Message :=
  match author_name c with
  | Some a => report a <$> filter (λ f, counted filetypes f) (files c)
  | None => []
  end.

(** The lines the collector sends for a list of repository names, up
    to the first name that is no string or does not resolve. *)
Fixpoint collect_lines (github : Github) (filetypes : list Value)
    (start end_ : datetime) (repos : list Value) : list Message :=
  match repos with
  | VStr r :: rest =>
      Line ("[bold blue]processing repo:[/bold blue] " +:+ r) None ::
      match get_repo github r with
      | Some repo =>
          (get_commits repo start end_ ≫= commit_lines filetypes)
          ++ collect_lines github filetypes start end_ rest
      | None => [Line ("unable to get " +:+ r) alert]
      end
  | _ => []
  end.

Definition lossy_warning : Message :=
  Line "only the last 'stats' will make it to the output!" alert.

Definition unsupported_warning : Message :=
  Line "unsupported filetype, you will get a python object output!" alert.

(** The warnings due before collection, by what the encoder will do
    with the output name: one when CSV will drop all tallies but the
    last, one when the fallback encoder will be used; none for ["-"]. *)
Definition preflight (output_filename : string) (stats_count : nat) : list Message :=
  if String.eqb output_filename "-" then []
  else
    (if String.eqb (extension output_filename) "csv"
     then (if bool_decide (1 < stats_count)%nat then [lossy_warning] else [])
     else match encoder_of output_filename with
          | repr => [unsupported_warning]
          | _ => []
          end).

(** The console of a run that is not silent when the loop starts. *)
Definition prepare_lines (w : World) (args : Args) (document : dict Value)
    (stats : list Value) : list Message :=
  (if String.eqb (args_input args) "-"
   then [Line "no input file provided, using default!" alert] else []) ++
  preflight (args_output args) (length stats) ++
  (match dict_get (run_environ w document) "GITHUB_AUTH_TOKEN" with
   | None =>
       [Line "using no api token is not recomended, you will get ratelimited!"
          alert]
   | Some _ => []
   end) ++
  [Line "[bold]starting![/bold]" None].

(** * Properties *)

(** ** Dictionaries *)

Section dictionaries.
Context {V : Type}.
Implicit Types (d : dict V) (k : string) (v : V).

Lemma dict_get_set d k v k' :
  dict_get (dict_set d k v) k' = if decide (k = k') then Some v else dict_get d k'.
Proof.
  induction d as [|[k0 v0] d IH]; simpl.
  - destruct (String.eqb_spec k k'); case_decide; congruence.
  - destruct (String.eqb_spec k0 k) as [->|Hne]; simpl.
    + destruct (String.eqb_spec k k'); case_decide; congruence.
    + rewrite IH. destruct (String.eqb_spec k0 k'); case_decide; congruence.
Qed.

Lemma dict_get_set_eq d k v : dict_get (dict_set d k v) k = Some v.
Proof. rewrite dict_get_set. by case_decide. Qed.

Lemma dict_get_set_ne d k v k' :
  k ≠ k' → dict_get (dict_set d k v) k' = dict_get d k'.
Proof. intros. rewrite dict_get_set. by case_decide. Qed.

Lemma dict_get_None d k : dict_get d k = None ↔ k ∉ keys d.
Proof.
  unfold keys. induction d as [|[k0 v0] d IH]; simpl.
  - split; [intros _; apply not_elem_of_nil | done].
  - rewrite not_elem_of_cons. destruct (String.eqb_spec k0 k) as [->|Hne].
    + split; [done | intros [? _]; done].
    + rewrite IH. split; [by intros | by intros [_ ?]].
Qed.

Lemma keys_set d k v :
  keys (dict_set d k v) =
  match dict_get d k with Some _ => keys d | None => (keys d ++ [k])%list end.
Proof.
  unfold keys. induction d as [|[k0 v0] d IH]; csimpl; [done|].
  destruct (String.eqb_spec k0 k) as [->|Hne]; csimpl; [done|].
  rewrite IH. by destruct (dict_get d k).
Qed.

Lemma NoDup_keys_set d k v : NoDup (keys d) → NoDup (keys (dict_set d k v)).
Proof.
  intros Hd. rewrite keys_set. destruct (dict_get d k) eqn:Hk; [done|].
  apply NoDup_app. split_and!; [done | | apply NoDup_singleton].
  intros x Hx ->%list_elem_of_singleton. by apply dict_get_None in Hk.
Qed.

(** With distinct keys, the entries under a key are the looked-up one. *)
Lemma filter_key d k :
  NoDup (keys d) →
  filter (λ e, e.1 = k) d = match dict_get d k with Some v => [(k, v)] | None => [] end.
Proof.
  unfold keys. induction d as [|[k0 v0] d IH]; [done|].
  csimpl. intros [Hk0 Hd]%NoDup_cons. rewrite filter_cons. simpl.
  destruct (String.eqb_spec k0 k) as [->|Hne].
  - rewrite decide_True by done. f_equal.
    rewrite IH by done. apply dict_get_None in Hk0. by rewrite Hk0.
  - rewrite decide_False by done. by apply IH.
Qed.

Lemma mapping_lookup d k : mapping d !! k = dict_get d k.
Proof.
  unfold mapping. induction d as [|[k0 v0] d IH]; simpl; [apply lookup_empty|].
  rewrite lookup_insert, IH.
  destruct (String.eqb_spec k0 k); case_decide; congruence.
Qed.

Lemma mapping_set d k v : mapping (dict_set d k v) = <[k:=v]> (mapping d).
Proof.
  apply map_eq. intros k'.
  rewrite lookup_insert, !mapping_lookup. apply dict_get_set.
Qed.
End dictionaries.

(** ** [split] and [extension] *)

Lemma append_cons x (a b : string) : String x a +:+ b = String x (a +:+ b).
Proof. reflexivity. Qed.

Lemma append_nil (b : string) : EmptyString +:+ b = b.
Proof. reflexivity. Qed.

Lemma append_assoc (a b c : string) : (a +:+ b) +:+ c = a +:+ b +:+ c.
Proof.
  induction a as [|x a IH]; [done|]. rewrite !append_cons. by f_equal.
Qed.

Lemma has_char_append c (a b : string) :
  has_char c (a +:+ b) = has_char c a || has_char c b.
Proof.
  induction a as [|x a IH]; [done|].
  rewrite append_cons. simpl. rewrite IH. apply orb_assoc.
Qed.

Lemma split_not_nil sep s : split sep s ≠ [].
Proof.
  destruct s as [|c s]; simpl; [done|].
  destruct (Ascii.eqb c sep); [done|]. by destruct (split sep s).
Qed.

Lemma join_split sep s : join (String sep EmptyString) (split sep s) = s.
Proof.
  induction s as [|c s IH]; simpl; [done|].
  destruct (Ascii.eqb_spec c sep) as [->|Hne].
  - pose proof (split_not_nil sep s).
    simpl. destruct (split sep s) as [|w ws] eqn:Hs; [done|].
    by rewrite IH.
  - destruct (split sep s) as [|w ws] eqn:Hs; [by apply split_not_nil in Hs|].
    destruct ws as [|w' ws]; simpl in *; by rewrite <-IH.
Qed.

Lemma split_segments sep s : Forall (λ x, has_char sep x = false) (split sep s).
Proof.
  induction s as [|c s IH]; simpl; [by repeat constructor|].
  destruct (Ascii.eqb_spec c sep) as [->|Hne].
  - by constructor.
  - destruct (split sep s) as [|w ws] eqn:Hs; [by apply split_not_nil in Hs|].
    apply Forall_cons in IH as [Hw Hws]. constructor; [|done].
    simpl. rewrite Hw. by apply orb_false_intro; [apply Ascii.eqb_neq|].
Qed.

Lemma join_snoc sep l e :
  l ≠ [] → join sep (l ++ [e]) = join sep l +:+ sep +:+ e.
Proof.
  induction l as [|x l IH]; [done|]. intros _.
  destruct l as [|y l]; [done|].
  change (join sep ((x :: y :: l) ++ [e]))
    with (x +:+ sep +:+ join sep ((y :: l) ++ [e])).
  rewrite IH by done. simpl. by rewrite !append_assoc.
Qed.

Lemma split_last_is_Some s : last_item (split "."%char s) = Some (extension s).
Proof.
  unfold extension, last_item.
  destruct (last (split "." s)) eqn:Hl; [done|].
  apply last_None in Hl. by apply split_not_nil in Hl.
Qed.

(** The extension has no dot, and the file name is either the extension
    alone or a prefix, a dot and the extension. *)
Lemma extension_after_last_dot s :
  has_char "." (extension s) = false ∧
  (if has_char "." s then ∃ prefix, s = prefix +:+ "." +:+ extension s
   else extension s = s).
Proof.
  pose proof (split_last_is_Some s) as Hl. unfold last_item in Hl.
  apply last_Some in Hl as [l' Hl].
  pose proof (split_segments "." s) as Hseg. rewrite Hl in Hseg.
  apply Forall_app in Hseg as [Hl' [He _]%Forall_cons].
  pose proof (join_split "." s) as Hj. rewrite Hl in Hj.
  split; [done|]. destruct l' as [|x l'].
  - simpl in Hj. assert (has_char "." s = false) as -> by congruence. done.
  - rewrite join_snoc in Hj by done.
    assert (has_char "." s = true) as ->.
    { rewrite <-Hj, has_char_append. simpl. apply orb_true_r. }
    eauto.
Qed.

Lemma str_in_elem x (l : list Value) : str_in x l = true ↔ VStr x ∈ l.
Proof.
  unfold str_in. rewrite existsb_exists. split.
  - intros (v & Hv%list_elem_of_In & Heq). destruct v; simpl in Heq; try done.
    apply String.eqb_eq in Heq as ->. done.
  - intros Hx. exists (VStr x). split; [by apply list_elem_of_In|].
    simpl. apply String.eqb_refl.
Qed.

(** ** Running the monad *)

Lemma bind_ok {A B} (m : M A) (k : A → M B) s s' a :
  m s = (s', Ok a) → bind m k s = k a s'.
Proof. unfold bind. by intros ->. Qed.

Lemma bind_stop {A B} (m : M A) (k : A → M B) s s' o :
  m s = (s', Stop o) → bind m k s = (s', Stop o).
Proof. unfold bind. by intros ->. Qed.

Lemma bind_inv_ok {A B} (m : M A) (k : A → M B) s s' b :
  bind m k s = (s', Ok b) → ∃ s1 a, m s = (s1, Ok a) ∧ k a s1 = (s', Ok b).
Proof. unfold bind. destruct (m s) as [s1 [a|o]]; [eauto | done]. Qed.

Lemma foldM_app {A B} (body : B → A → M B) l1 l2 b s :
  foldM body (l1 ++ l2) b s = (do b' <- foldM body l1 b; foldM body l2 b') s.
Proof.
  revert b s. induction l1 as [|x l1 IH]; intros b s; [done|].
  simpl. unfold bind. destruct (body b x s) as [s1 [b1|o]]; [|done].
  rewrite IH. done.
Qed.

(** One step of a computation whose first action always returns. *)
Ltac step := erewrite bind_ok by reflexivity; cbv beta.

(** ** The collector adds up the pairs it meets *)

Lemma process_files_run filetypes a fs t s :
  ∃ s', foldM (process_file filetypes a) fs t s
        = (s', Ok (accumulate ((λ f, (a, changes f))
                               <$> filter (λ f, counted filetypes f) fs) t)).
Proof.
  revert t s. induction fs as [|f fs IH]; intros t s; [eexists; reflexivity|].
  rewrite filter_cons. cbn [foldM]. unfold bind at 1, process_file at 1.
  fold (counted filetypes f).
  destruct (counted filetypes f) eqn:Hf; simpl; apply IH.
Qed.

Lemma process_commits_run filetypes cs t s :
  ∃ s', foldM (process_commit filetypes) cs t s
        = (s', Ok (accumulate (pairs filetypes cs) t)).
Proof.
  revert t s. induction cs as [|c cs IH]; intros t s; [eexists; reflexivity|].
  unfold pairs, accumulate. rewrite bind_cons, foldl_app. simpl.
  assert (∃ s1, process_commit filetypes t c s
                = (s1, Ok (accumulate (commit_pairs filetypes c) t))) as [s1 Hc].
  { unfold process_commit, commit_pairs, author_name.
    destruct (author c) as [user|]; [|by eexists].
    destruct (name user) as [a|]; [|by eexists]. apply process_files_run. }
  rewrite (bind_ok _ _ _ _ _ Hc). apply IH.
Qed.

Lemma process_repo_run github filetypes start end_ t r repo s :
  get_repo github r = Some repo →
  ∃ s', process_repo github filetypes start end_ t (VStr r) s
        = (s', Ok (accumulate (pairs filetypes (get_commits repo start end_)) t)).
Proof.
  intros Hr. unfold process_repo. do 2 step. rewrite Hr. step.
  apply process_commits_run.
Qed.

Lemma process_repos_run github job repos rs t s :
  repositories github repos = Some rs →
  ∃ s', foldM (process_repo github (job_filetypes job) (job_start job) (job_end job))
              repos t s
        = (s', Ok (accumulate (pairs (job_filetypes job) (window job rs)) t)).
Proof.
  unfold repositories. revert rs t s.
  induction repos as [|v repos IH]; intros rs t s Hrs.
  { injection Hrs as <-. eexists; reflexivity. }
  cbn in Hrs. destruct v as [r| | | | |]; try done.
  destruct (get_repo github r) as [repo|] eqn:Hr; [|done]. cbn in Hrs.
  destruct (mapM _ repos) as [rs'|] eqn:Hrs'; [|done]. injection Hrs as <-.
  unfold window, pairs, accumulate. rewrite bind_cons, bind_app, foldl_app.
  cbn [foldM].
  destruct (process_repo_run github (job_filetypes job) (job_start job)
              (job_end job) t r repo s Hr) as [s1 H1].
  rewrite (bind_ok _ _ _ _ _ H1). by apply IH.
Qed.

Theorem collect_run github job rs s :
  repositories github (job_repos job) = Some rs →
  ∃ s', collect github job s
        = (s', Ok (accumulate (pairs (job_filetypes job) (window job rs)) [])).
Proof. apply process_repos_run. Qed.

(** The first repository that does not resolve ends the run with 4. *)
Lemma collect_unresolved github job before r after rs s :
  job_repos job = (before ++ VStr r :: after)%list →
  repositories github before = Some rs →
  get_repo github r = None →
  ∃ s', collect github job s = (s', Stop (Exit 4)).
Proof.
  intros Hjob Hrs Hr. unfold collect. rewrite Hjob, foldM_app.
  destruct (process_repos_run github job before rs [] s Hrs) as [s1 H1].
  rewrite (bind_ok _ _ _ _ _ H1). cbn [foldM]. unfold process_repo.
  erewrite bind_stop; [by eexists|]. do 2 step. rewrite Hr.
  erewrite bind_stop; [done|]. by step.
Qed.

(** What the accumulated tally holds for an author. *)
Lemma dict_get_addornewitem t a v b :
  dict_get (addornewitem t a v) b =
  if decide (a = b) then Some (from_option (λ old, old + v) v (dict_get t a))
  else dict_get t b.
Proof.
  unfold addornewitem. destruct (dict_get t a) eqn:Ha; by rewrite dict_get_set.
Qed.

Lemma accumulate_lookup ps t a :
  dict_get (accumulate ps t) a =
  match dict_get t a, (filter (λ p, p.1 = a) ps).*2 with
  | None, [] => None
  | None, vs => Some (sumZ vs)
  | Some x, vs => Some (x + sumZ vs)
  end.
Proof.
  unfold accumulate. revert t. induction ps as [|[b v] ps IH]; intros t.
  - simpl. destruct (dict_get t a); [f_equal; lia | done].
  - simpl. rewrite IH. unfold tally_step. simpl.
    rewrite dict_get_addornewitem, filter_cons. simpl.
    destruct (decide (b = a)) as [->|Hne]; csimpl.
    + destruct (dict_get t a); simpl; [f_equal; lia|].
      destruct ((filter (λ p, p.1 = a) ps).*2); simpl; f_equal; lia.
    + done.
Qed.

Lemma NoDup_keys_accumulate ps t : NoDup (keys t) → NoDup (keys (accumulate ps t)).
Proof.
  unfold accumulate. revert t. induction ps as [|[b v] ps IH]; intros t Ht; [done|].
  simpl. apply IH. unfold tally_step, addornewitem.
  destruct (dict_get t _); by apply NoDup_keys_set.
Qed.

(** The pairs of one author are the credited changes. *)
Lemma pairs_credited filetypes cs a :
  (filter (λ p, p.1 = a) (pairs filetypes cs)).*2 = credited filetypes cs a.
Proof.
  unfold pairs, credited. induction cs as [|c cs IH]; [done|].
  rewrite bind_cons, filter_app, fmap_app, IH, filter_cons.
  assert ((filter (λ p, p.1 = a) (commit_pairs filetypes c)).*2 =
          if decide (author_name c = Some a)
          then f ← filter (λ f, counted filetypes f) (files c); [changes f]
          else []) as ->.
  { unfold commit_pairs. destruct (author_name c) as [b|]; [|by case_decide].
    generalize (filter (λ f, counted filetypes f) (files c)). intros fs.
    induction fs as [|f fs IHfs]; [by case_decide|].
    csimpl. rewrite filter_cons. simpl.
    destruct (decide (b = a)) as [->|Hne].
    - rewrite decide_True in * by done. csimpl. by rewrite IHfs.
    - rewrite decide_False in * by congruence. done. }
  case_decide; by rewrite ?bind_cons.
Qed.

(** ** Calm computations and their outcomes *)

Lemma calm_refl s : calm s s.
Proof. by unfold calm. Qed.

Lemma calm_trans s1 s2 s3 : calm s1 s2 → calm s2 s3 → calm s1 s3.
Proof.
  unfold calm. intros (H1 & H2 & H3) (H4 & H5 & H6).
  split_and!; [congruence | congruence |].
  intros Hs. rewrite H6, H3; [done | done | congruence].
Qed.

Lemma calm_emit msgs s : calm s (emit msgs s).
Proof. unfold calm, emit. by destruct (silent s) eqn:Hs. Qed.

Section within.
Context {E : Outcome → Prop}.

Lemma within_ret {A} (a : A) : within E (ret a).
Proof. intros s. split; [apply calm_refl | done]. Qed.

Lemma within_bind {A B} (m : M A) (k : A → M B) :
  within E m → (∀ a, within E (k a)) → within E (bind m k).
Proof.
  intros Hm Hk s. unfold bind. destruct (Hm s) as [Hc Ho].
  destruct (m s) as [s1 [a|o]]; simpl in *.
  - destruct (Hk a s1) as [Hc' Ho']. split; [by eapply calm_trans | done].
  - split; [done | by intros ? [= <-]; apply Ho].
Qed.

Lemma within_foldM {A B} (body : B → A → M B) l b :
  (∀ b x, within E (body b x)) → within E (foldM body l b).
Proof.
  intros Hbody. revert b. induction l as [|x l IH]; intros b; simpl.
  - apply within_ret.
  - apply within_bind; [apply Hbody | apply IH].
Qed.

Lemma within_print msg : within E (print msg).
Proof. intros s. split; [apply calm_emit | done]. Qed.

Lemma within_datetime_now w : within E (datetime_now w).
Proof. intros s. by split. Qed.

Lemma within_exit {A} code : E (Exit code) → within E (@exit A code).
Proof. intros HE s. split; [apply calm_refl | by intros ? [= <-]]. Qed.

Lemma within_raise {A} e : E (Uncaught e) → within E (@raise A e).
Proof. intros HE s. split; [apply calm_refl | by intros ? [= <-]]. Qed.
End within.

Lemma within_mono {A} (E E' : Outcome → Prop) (m : M A) :
  (∀ o, E o → E' o) → within E m → within E' m.
Proof. intros HE Hm s. destruct (Hm s). split; [done | eauto]. Qed.

Lemma within_as_table E v : E (Uncaught TypeError) → within E (as_table v).
Proof. intros. destruct v; simpl; by (apply within_ret || apply within_raise). Qed.

Lemma within_as_list E v : E (Uncaught TypeError) → within E (as_list v).
Proof. intros. destruct v; simpl; by (apply within_ret || apply within_raise). Qed.

Lemma within_as_str E v : E (Uncaught TypeError) → within E (as_str v).
Proof. intros. destruct v; simpl; by (apply within_ret || apply within_raise). Qed.

Lemma within_as_date E v : E (Uncaught TypeError) → within E (as_date v).
Proof. intros. destruct v; simpl; by (apply within_ret || apply within_raise). Qed.

Lemma loop_stop_raise github : loop_stop github (Uncaught TypeError).
Proof. by right. Qed.

Create HintDb within discriminated.
#[local] Hint Resolve within_ret within_print within_datetime_now within_exit
  within_raise within_as_table within_as_list within_as_str within_as_date
  loop_stop_raise : within.

(** Decomposes a goal [within E m] along the structure of [m]. *)
Ltac within_tac :=
  repeat first
    [ solve [auto with within nocore]
    | apply within_bind; [|intros ?]
    | apply within_foldM; intros ? ?
    | progress cbv beta zeta
    | case_match ].

Lemma within_process_file E filetypes a t f : within E (process_file filetypes a t f).
Proof. unfold process_file, print_filechange. within_tac. Qed.
#[local] Hint Resolve within_process_file : within.

Lemma within_process_commit E filetypes t c : within E (process_commit filetypes t c).
Proof. unfold process_commit. within_tac. Qed.
#[local] Hint Resolve within_process_commit : within.

Lemma within_collect github job : within (loop_stop github) (collect github job).
Proof.
  unfold collect, process_repo. within_tac.
  apply within_exit. left. eauto.
Qed.
#[local] Hint Resolve within_collect : within.

Lemma within_resolve E w default stat :
  E (Uncaught TypeError) → within E (resolve w default stat).
Proof. intros. unfold resolve. within_tac. Qed.
#[local] Hint Resolve within_resolve : within.

Lemma within_stat_job w github default stat :
  within (loop_stop github) (stat_job w github default stat).
Proof. unfold stat_job. within_tac. Qed.
#[local] Hint Resolve within_stat_job : within.

Lemma within_process_stats w github default stats :
  within (loop_stop github) (process_stats w github default stats).
Proof. unfold process_stats, process_stat. within_tac. Qed.
#[local] Hint Resolve within_process_stats : within.

Lemma within_get_github E w env : within E (get_github w env).
Proof. unfold get_github. within_tac. Qed.
#[local] Hint Resolve within_get_github : within.

Lemma within_filetype_check E name n : within E (filetype_check name n).
Proof. unfold filetype_check. within_tac. Qed.
#[local] Hint Resolve within_filetype_check : within.

(** ** Resolution of a stat group *)

Lemma as_table_inv v s s' t : as_table v s = (s', Ok t) → v = VTable t ∧ s' = s.
Proof. destruct v; simpl; intros [= <- <-] || intros [=]; done. Qed.

Lemma as_list_inv v s s' l : as_list v s = (s', Ok l) → v = VList l ∧ s' = s.
Proof. destruct v; simpl; intros [= <- <-] || intros [=]; done. Qed.

Lemma as_str_inv v s s' x : as_str v s = (s', Ok x) → v = VStr x ∧ s' = s.
Proof. destruct v; simpl; intros [= <- <-] || intros [=]; done. Qed.

Lemma as_date_inv v s s' t : as_date v s = (s', Ok t) → v = VDate t ∧ s' = s.
Proof. destruct v; simpl; intros [= <- <-] || intros [=]; done. Qed.

Lemma trygetitem_fallback (stat default : dict Value) field constant :
  trygetitem [stat; default] field constant = fallback stat default field constant.
Proof. reflexivity. Qed.

Lemma resolve_inv w default stat s s' job :
  resolve w default stat s = (s', Ok job) →
  ∃ stat_table default_table,
    stat = VTable stat_table ∧ default = VTable default_table ∧
    VStr (job_label job)
      = fallback stat_table default_table "label" (VStr EmptyString) ∧
    VList (job_repos job) = fallback stat_table default_table "repos" (VList []) ∧
    VList (job_filetypes job)
      = fallback stat_table default_table "filetypes" (VList []) ∧
    VDate (job_start job)
      = fallback stat_table default_table "start_date" (VDate epoch) ∧
    VDate (job_end job)
      = fallback stat_table default_table "end_date" (VDate (time_at w (clock s))).
Proof.
  unfold resolve. intros H.
  apply bind_inv_ok in H as (? & st & [-> ->]%as_table_inv & H).
  apply bind_inv_ok in H as (? & dt & [-> ->]%as_table_inv & H).
  cbv zeta in H. rewrite !trygetitem_fallback in H.
  apply bind_inv_ok in H as (? & l & [Hl ->]%as_str_inv & H).
  apply bind_inv_ok in H as (? & rs & [Hrs ->]%as_list_inv & H).
  apply bind_inv_ok in H as (? & fs & [Hfs ->]%as_list_inv & H).
  apply bind_inv_ok in H as (? & t1 & [Ht1 ->]%as_date_inv & H).
  apply bind_inv_ok in H as (? & now & [= <- <-] & H).
  apply bind_inv_ok in H as (? & t2 & [Ht2 ->]%as_date_inv & H).
  injection H as <- <-. simpl. by exists st, dt.
Qed.

Lemma stat_job_inv w github default stat s s' label authors :
  stat_job w github default stat s = (s', Ok (label, authors)) →
  ∃ s1 s2 job,
    resolve w default stat s = (s1, Ok job) ∧ job_label job = label ∧
    collect github job s2 = (s', Ok authors) ∧ label_of default stat = Some label.
Proof.
  unfold stat_job. intros H.
  apply bind_inv_ok in H as (s1 & job & Hjob & H).
  apply bind_inv_ok in H as (s2 & [] & [= <-] & H).
  apply bind_inv_ok in H as (s3 & t & Ht & [= <- <- <-]).
  exists s1, (emit [Line ("[bold blue]processing:[/bold blue] " +:+ job_label job) None] s1), job.
  split_and!; [done..|].
  apply resolve_inv in Hjob as (st & dt & -> & -> & Hl & _).
  unfold label_of. rewrite trygetitem_fallback, <-Hl. done.
Qed.

(** ** The loop over the stat groups *)

Lemma process_stat_inv w github default acc stat s s' label output :
  process_stat w github default acc stat s = (s', Ok (label, output)) →
  ∃ authors, stat_job w github default stat s = (s', Ok (label, authors)) ∧
             output = dict_set acc.2 label authors.
Proof.
  unfold process_stat. intros H.
  apply bind_inv_ok in H as (s1 & [l t] & Hjob & [= <- <- <-]). eauto.
Qed.

Lemma process_stats_single w github default stat s s' label authors :
  stat_job w github default stat s = (s', Ok (label, authors)) →
  process_stats w github default [stat] s = (s', Ok (label, [(label, authors)])).
Proof.
  intros H. unfold process_stats. cbn [foldM]. unfold process_stat at 1.
  rewrite (bind_ok _ _ _ _ _ (bind_ok _ _ _ _ _ H)). done.
Qed.

Lemma process_stats_snoc w github default stats stat s s' label output :
  process_stats w github default (stats ++ [stat]) s = (s', Ok (label, output)) →
  ∃ s1 acc authors,
    process_stats w github default stats s = (s1, Ok acc) ∧
    stat_job w github default stat s1 = (s', Ok (label, authors)) ∧
    output = dict_set acc.2 label authors.
Proof.
  unfold process_stats. rewrite foldM_app. intros H.
  apply bind_inv_ok in H as (s1 & acc & Hacc & H). cbn [foldM] in H.
  apply bind_inv_ok in H as (s2 & [l t] & H & [= <- <- <-]).
  apply process_stat_inv in H as (authors & H & ->). eauto 10.
Qed.

Lemma NoDup_keys_foldM_process_stat w github default stats acc s s' label output :
  foldM (process_stat w github default) stats acc s = (s', Ok (label, output)) →
  NoDup (keys acc.2) → NoDup (keys output).
Proof.
  revert acc s. induction stats as [|stat stats IH]; intros acc s H Hacc.
  - injection H as <- ->. done.
  - cbn [foldM] in H. apply bind_inv_ok in H as (s1 & [l t] & H1 & H).
    apply process_stat_inv in H1 as (authors & _ & ->).
    apply IH in H; [done|]. by apply NoDup_keys_set.
Qed.

Lemma NoDup_keys_process_stats w github default stats s s' label output :
  process_stats w github default stats s = (s', Ok (label, output)) →
  NoDup (keys output).
Proof.
  intros H. eapply NoDup_keys_foldM_process_stat in H; [done|]. constructor.
Qed.

(** The label and the entry the last stat group leaves behind. *)
Lemma process_stats_last w github default before stat s s' label output :
  process_stats w github default (before ++ [stat]) s = (s', Ok (label, output)) →
  ∃ s1 acc authors,
    process_stats w github default before s = (s1, Ok acc) ∧
    process_stats w github default [stat] s1 = (s', Ok (label, [(label, authors)])) ∧
    label_of default stat = Some label ∧
    dict_get output label = Some authors ∧
    filter (λ e, e.1 = label) output = [(label, authors)].
Proof.
  intros H. pose proof (NoDup_keys_process_stats _ _ _ _ _ _ _ _ H) as Hnd.
  apply process_stats_snoc in H as (s1 & acc & authors & Hacc & Hjob & ->).
  exists s1, acc, authors.
  pose proof (stat_job_inv _ _ _ _ _ _ _ _ Hjob) as (_ & _ & _ & _ & _ & _ & Hl).
  split_and!; [done | by apply process_stats_single | done | apply dict_get_set_eq |].
  rewrite filter_key by done. by rewrite dict_get_set_eq.
Qed.

(** A key of the table stays a key while later stat groups commit. *)
Lemma foldM_process_stat_keeps w github default stats acc s s' label output k :
  foldM (process_stat w github default) stats acc s = (s', Ok (label, output)) →
  is_Some (dict_get acc.2 k) → is_Some (dict_get output k).
Proof.
  revert acc s. induction stats as [|stat stats IH]; intros acc s H Hk.
  - injection H as <- ->. done.
  - cbn [foldM] in H. apply bind_inv_ok in H as (s1 & [l t] & H1 & H).
    apply process_stat_inv in H1 as (authors & _ & ->).
    apply IH in H; [done|]. simpl. rewrite dict_get_set. by case_decide.
Qed.

(** ** The output encoder *)

Lemma wrote_nil s : wrote [] s = s.
Proof. destruct s. unfold wrote. simpl. by rewrite app_nil_r. Qed.

Lemma wrote_wrote cs1 cs2 s : wrote cs2 (wrote cs1 s) = wrote (cs1 ++ cs2) s.
Proof. unfold wrote. simpl. by rewrite app_assoc. Qed.

Lemma write_run c s : write c s = (wrote [c] s, Ok tt).
Proof. reflexivity. Qed.

Lemma write_rows_run (tally : dict Z) s :
  foldM (λ _ '(key, val), write (Row [key; str val])) tally tt s
  = (wrote ((λ e, Row [e.1; str e.2]) <$> tally) s, Ok tt).
Proof.
  revert s. induction tally as [|[key val] tally IH]; intros s.
  - simpl. by rewrite wrote_nil.
  - cbn [foldM]. erewrite bind_ok by apply write_run.
    by rewrite IH, wrote_wrote.
Qed.

Lemma write_output_csv output file name label tally s :
  extension name = "csv" → dict_get output label = Some tally →
  write_output output file name label s = (wrote (csv_rows tally) s, Ok tt).
Proof.
  intros Hext Hget. unfold write_output. rewrite Hext, Hget. simpl.
  erewrite bind_ok by apply write_run.
  unfold items. by rewrite write_rows_run, wrote_wrote.
Qed.

Lemma write_output_csv_missing output file name label s :
  extension name = "csv" → dict_get output label = None →
  write_output output file name label s
  = (wrote [Row ["user"; "contrib"]] s, Stop (Uncaught (KeyError label))).
Proof.
  intros Hext Hget. unfold write_output. rewrite Hext, Hget. simpl.
  by erewrite bind_ok by apply write_run.
Qed.

Lemma write_output_whole output file name label s :
  extension name ≠ "csv" →
  write_output output file name label s
  = (wrote [Text (encoder_of name) output] s, Ok tt).
Proof.
  intros Hext. unfold write_output, encoder_of.
  destruct (String.eqb_spec (extension name) "toml"); [done|].
  destruct (String.eqb_spec (extension name) "json"); [done|].
  destruct (String.eqb_spec (extension name) "csv"); done.
Qed.

(** ** The run up to the loop *)

(** A calm computation that never stops returns. *)
Lemma within_never_returns {A} (m : M A) s :
  within never m → ∃ s' a, m s = (s', Ok a) ∧ calm s s'.
Proof.
  intros Hm. destruct (Hm s) as [Hc Ho]. destruct (m s) as [s' [a|o]]; [eauto|].
  destruct (Ho o eq_refl).
Qed.

Lemma get_github_run w env s :
  ∃ s', get_github w env s
        = (s', Ok (github_client w (dict_get env "GITHUB_AUTH_TOKEN"))) ∧ calm s s'.
Proof.
  unfold get_github. destruct (dict_get env "GITHUB_AUTH_TOKEN").
  - eexists. split; [reflexivity | apply calm_refl].
  - step. eexists. split; [reflexivity | apply calm_emit].
Qed.

Lemma input_fails_dec w args :
  input_fails w args ∨
  (¬ input_fails w args ∧
   (args_input args = "-" ∨ open_read w (args_input args) = inl (input_text w args))).
Proof.
  unfold input_fails, input_text.
  destruct (String.eqb_spec (args_input args) "-") as [Heq|Hne].
  - right. split; [by intros [? _] | by left].
  - destruct (open_read w (args_input args)) as [text|e] eqn:Hr.
    + right. split; [by intros [_ [? ?]] | by right].
    + left. eauto.
Qed.

Lemma output_fails_dec w args :
  output_fails w args ∨
  (¬ output_fails w args ∧
   (args_output args = "-" ∨ open_write w (args_output args) = None)).
Proof.
  unfold output_fails.
  destruct (String.eqb_spec (args_output args) "-") as [Heq|Hne].
  - right. split; [by intros [? _] | by left].
  - destruct (open_write w (args_output args)) as [e|] eqn:Hr.
    + left. eauto.
    + right. split; [by intros [_ [? ?]] | by right].
Qed.

Lemma open_files_input_fails w args s :
  input_fails w args →
  ∃ s', open_files w args s = (s', Stop (Exit 1)) ∧ calm s s'.
Proof.
  intros [Hne [e He]]. unfold open_files.
  apply String.eqb_neq in Hne. rewrite Hne, He.
  eexists. split; [|apply calm_emit].
  erewrite bind_stop; [done|]. by step.
Qed.

Lemma open_files_output_fails w args s :
  ¬ input_fails w args → output_fails w args →
  ∃ s', open_files w args s = (s', Stop (Exit 2)) ∧ calm s s'.
Proof.
  intros Hin [Hne [e He]]. unfold open_files.
  apply String.eqb_neq in Hne. rewrite Hne, He.
  destruct (input_fails_dec w args) as [?|[_ [Heq|Hr]]]; [done| |].
  - apply String.eqb_eq in Heq. rewrite Heq. step.
    eexists. split; [|eapply calm_trans; apply calm_emit].
    erewrite bind_stop; [done|]. by step.
  - destruct (String.eqb (args_input args) "-").
    + step. eexists. split; [|eapply calm_trans; apply calm_emit].
      erewrite bind_stop; [done|]. by step.
    + rewrite Hr. step. eexists. split; [|apply calm_emit].
      erewrite bind_stop; [done|]. by step.
Qed.

Lemma open_files_run w args s :
  ¬ input_fails w args → ¬ output_fails w args →
  ∃ s' file, open_files w args s = (s', Ok (input_text w args, file)) ∧ calm s s'.
Proof.
  intros Hin Hout. unfold open_files, input_text.
  destruct (input_fails_dec w args) as [?|[_ Hi]]; [done|].
  destruct (output_fails_dec w args) as [?|[_ Ho]]; [done|].
  assert (∃ s1, (if String.eqb (args_input args) "-"
                 then print (Line "no input file provided, using default!" alert) ;;
                      ret DEFAULT_INPUT
                 else match open_read w (args_input args) with
                      | inl text => ret text
                      | inr e => print (Line ("could not open input file: " +:+ e) alert) ;;
                                 exit 1
                      end) s = (s1, Ok (input_text w args)) ∧ calm s s1)
    as (s1 & H1 & Hc1).
  { unfold input_text. destruct (String.eqb (args_input args) "-") eqn:Heq.
    - step. eexists. split; [reflexivity | apply calm_emit].
    - destruct Hi as [Hi%String.eqb_eq|Hr]; [congruence|]. rewrite Hr.
      eexists. split; [reflexivity | apply calm_refl]. }
  unfold input_text in H1. rewrite (bind_ok _ _ _ _ _ H1).
  destruct (String.eqb (args_output args) "-") eqn:Heq.
  - step. by eexists _, _.
  - destruct Ho as [Ho%String.eqb_eq|Hw]; [congruence|]. rewrite Hw. step.
    by eexists _, _.
Qed.

(** How [prepare] ends, by the failure class of the run. *)
Lemma prepare_cases w args :
  (input_fails w args ∧
   ∃ s, prepare w args initial = (s, Stop (Exit 1)) ∧
        calm (started (args_silent args)) s) ∨
  (¬ input_fails w args ∧ output_fails w args ∧
   ∃ s, prepare w args initial = (s, Stop (Exit 2)) ∧
        calm (started (args_silent args)) s) ∨
  (¬ input_fails w args ∧ ¬ output_fails w args ∧ parse_fails w args ∧
   ∃ s, prepare w args initial = (s, Stop (Exit 3)) ∧
        calm (started (args_silent args)) s) ∨
  (¬ input_fails w args ∧ ¬ output_fails w args ∧
   ∃ document, toml_loads w (input_text w args) = inl document ∧
     (((∀ stats, run_stats document ≠ VList stats) ∧
       ∃ s, prepare w args initial = (s, Stop (Uncaught TypeError)) ∧
            calm (started (args_silent args)) s) ∨
      (∃ stats s0 file,
         run_stats document = VList stats ∧
         calm (started (args_silent args)) s0 ∧
         prepare w args initial
         = (s0, Ok (file, stats, run_github w document, run_default document))))).
Proof.
  unfold prepare. step. change (set_silent _ initial).1 with (started (args_silent args)).
  set (s := started (args_silent args)).
  destruct (input_fails_dec w args) as [Hin|[Hin _]].
  { left. split; [done|].
    destruct (open_files_input_fails w args s Hin) as (s' & H & Hc).
    rewrite (bind_stop _ _ _ _ _ H). eauto. }
  right. destruct (output_fails_dec w args) as [Hout|[Hout _]].
  { left. split_and!; [done..|].
    destruct (open_files_output_fails w args s Hin Hout) as (s' & H & Hc).
    rewrite (bind_stop _ _ _ _ _ H). eauto. }
  right. destruct (open_files_run w args s Hin Hout) as (s1 & file & H & Hc1).
  rewrite (bind_ok _ _ _ _ _ H). cbv beta iota.
  destruct (toml_loads w (input_text w args)) as [document|e] eqn:Hdoc.
  2:{ left. split_and!; [done | done | by exists e |].
      eexists. split; [|eapply calm_trans; [done | apply calm_emit]].
      erewrite bind_stop; [done|]. by step. }
  right. split_and!; [done..|]. exists document. split; [done|]. step.
  fold (run_stats document).
  destruct (run_stats document) as [| | | |stats|] eqn:Hstats;
    try (left; split; [done|]; exists s1; split; [|done];
         by erewrite bind_stop by reflexivity).
  right. step.
  destruct (within_never_returns (filetype_check (args_output args) (length stats)) s1)
    as (s2 & [] & H2 & Hc2); [apply within_filetype_check|].
  rewrite (bind_ok _ _ _ _ _ H2). cbv beta zeta.
  fold (run_environ w document).
  destruct (get_github_run w (run_environ w document) s2) as (s3 & H3 & Hc3).
  rewrite (bind_ok _ _ _ _ _ H3). step. fold (run_github w document).
  fold (run_default document).
  exists stats, (emit [Line "[bold]starting![/bold]" None] s3), file.
  split; [done|]. split; [|done].
  eapply calm_trans; [done|]. eapply calm_trans; [done|].
  eapply calm_trans; [done|]. apply calm_emit.
Qed.

Lemma aggregate_stop w args s o :
  prepare w args initial = (s, Stop o) → aggregate w args initial = (s, Stop o).
Proof. intros H. unfold aggregate. by rewrite (bind_stop _ _ _ _ _ H). Qed.

Lemma aggregate_loop w args s0 file stats github default :
  prepare w args initial = (s0, Ok (file, stats, github, default)) →
  aggregate w args initial =
  match process_stats w github default stats s0 with
  | (s1, Ok (label, output)) => (s1, Ok (file, label, output))
  | (s1, Stop o) => (s1, Stop o)
  end.
Proof.
  intros H. unfold aggregate. rewrite (bind_ok _ _ _ _ _ H). unfold bind.
  by destruct (process_stats _ _ _ _ _) as [s1 [[l o]|o]].
Qed.

Lemma run_stop w args s o :
  aggregate w args initial = (s, Stop o) → run w args = (s, o).
Proof.
  intros H. unfold run, main.
  by rewrite (bind_stop _ _ _ _ _ (bind_stop _ _ _ _ _ H)).
Qed.

Lemma run_ok w args s file label output :
  aggregate w args initial = (s, Ok (file, label, output)) →
  run w args =
  match write_output output file (args_output args) label
          (emit [Object output] (emit [Line "[bold]done![/bold] output:" None] s)) with
  | (s', Ok _) => (s', Exit 0)
  | (s', Stop o) => (s', o)
  end.
Proof.
  intros H. unfold run, main, bind at 1. rewrite (bind_ok _ _ _ _ _ H).
  do 2 step. by destruct (write_output _ _ _ _ _) as [s' [[]|o]].
Qed.

(** ** What the flag cannot change *)

Lemma akin_emit msgs1 msgs2 s1 s2 : akin s1 s2 → akin (emit msgs1 s1) (emit msgs2 s2).
Proof. unfold akin, emit. by destruct (silent s1), (silent s2). Qed.

Lemma similar_ret {A} (a : A) : similar (ret a) (ret a).
Proof. by intros s1 s2 H. Qed.

Lemma similar_bind {A B} (m1 m2 : M A) (k1 k2 : A → M B) :
  similar m1 m2 → (∀ a, similar (k1 a) (k2 a)) → similar (bind m1 k1) (bind m2 k2).
Proof.
  intros Hm Hk s1 s2 H. unfold bind. destruct (Hm s1 s2 H) as [Hs Hr].
  destruct (m1 s1) as [s1' r1], (m2 s2) as [s2' r2]. simpl in *. subst r2.
  destruct r1 as [a|o]; [by apply Hk | done].
Qed.

Lemma similar_foldM {A B} (body1 body2 : B → A → M B) l b :
  (∀ b x, similar (body1 b x) (body2 b x)) →
  similar (foldM body1 l b) (foldM body2 l b).
Proof.
  intros Hbody. revert b. induction l as [|x l IH]; intros b; simpl.
  - apply similar_ret.
  - apply similar_bind; [apply Hbody | apply IH].
Qed.

Lemma similar_print msg1 msg2 : similar (print msg1) (print msg2).
Proof. intros s1 s2 H. split; [by apply akin_emit | done]. Qed.

Lemma similar_set_silent b1 b2 : similar (set_silent b1) (set_silent b2).
Proof. by intros s1 s2 H. Qed.

Lemma similar_exit {A} code : similar (@exit A code) (exit code).
Proof. by intros s1 s2 H. Qed.

Lemma similar_raise {A} e : similar (@raise A e) (raise e).
Proof. by intros s1 s2 H. Qed.

Lemma similar_write c : similar (write c) (write c).
Proof. intros s1 s2 [Hw Hc]. unfold akin. simpl. by rewrite Hw. Qed.

Lemma similar_datetime_now w : similar (datetime_now w) (datetime_now w).
Proof. intros s1 s2 [Hw Hc]. unfold akin. simpl. by rewrite Hc. Qed.

Lemma similar_as_table v : similar (as_table v) (as_table v).
Proof. destruct v; simpl; by (apply similar_ret || apply similar_raise). Qed.

Lemma similar_as_list v : similar (as_list v) (as_list v).
Proof. destruct v; simpl; by (apply similar_ret || apply similar_raise). Qed.

Lemma similar_as_str v : similar (as_str v) (as_str v).
Proof. destruct v; simpl; by (apply similar_ret || apply similar_raise). Qed.

Lemma similar_as_date v : similar (as_date v) (as_date v).
Proof. destruct v; simpl; by (apply similar_ret || apply similar_raise). Qed.

Create HintDb similar discriminated.
#[local] Hint Resolve similar_ret similar_print similar_set_silent similar_exit
  similar_raise similar_write similar_datetime_now similar_as_table
  similar_as_list similar_as_str similar_as_date : similar.

(** Decomposes a goal [similar m m] along the structure of [m]. *)
Ltac similar_tac :=
  repeat first
    [ solve [auto with similar nocore]
    | apply similar_bind; [|intros ?]
    | apply similar_foldM; intros ? ?
    | progress cbv beta zeta
    | case_match ].

Lemma similar_process_file filetypes a t f :
  similar (process_file filetypes a t f) (process_file filetypes a t f).
Proof. unfold process_file, print_filechange. similar_tac. Qed.
#[local] Hint Resolve similar_process_file : similar.

Lemma similar_collect github job : similar (collect github job) (collect github job).
Proof. unfold collect, process_repo, process_commit. similar_tac. Qed.
#[local] Hint Resolve similar_collect : similar.

Lemma similar_resolve w default stat :
  similar (resolve w default stat) (resolve w default stat).
Proof. unfold resolve. similar_tac. Qed.
#[local] Hint Resolve similar_resolve : similar.

Lemma similar_process_stats w github default stats :
  similar (process_stats w github default stats)
          (process_stats w github default stats).
Proof. unfold process_stats, process_stat, stat_job. similar_tac. Qed.
#[local] Hint Resolve similar_process_stats : similar.

Lemma similar_write_output output file name label :
  similar (write_output output file name label)
          (write_output output file name label).
Proof. unfold write_output. similar_tac. Qed.
#[local] Hint Resolve similar_write_output : similar.

Lemma similar_open_files w quiet loud input output :
  similar
    (open_files w {| args_silent := quiet; args_input := input; args_output := output |})
    (open_files w {| args_silent := loud; args_input := input; args_output := output |}).
Proof. unfold open_files. cbn [args_input args_output]. similar_tac. Qed.
#[local] Hint Resolve similar_open_files : similar.

Lemma similar_aggregate w quiet loud input output :
  similar
    (aggregate w {| args_silent := quiet; args_input := input; args_output := output |})
    (aggregate w {| args_silent := loud; args_input := input; args_output := output |}).
Proof.
  unfold aggregate, prepare, filetype_check, get_github.
  cbn [args_input args_output args_silent]. similar_tac.
Qed.
#[local] Hint Resolve similar_aggregate : similar.

Lemma similar_main w quiet loud input output :
  similar
    (main w {| args_silent := quiet; args_input := input; args_output := output |})
    (main w {| args_silent := loud; args_input := input; args_output := output |}).
Proof. unfold main. cbn [args_input args_output args_silent]. similar_tac. Qed.

(** ** Sums up to the order of their terms *)

Lemma sumZ_Permutation l l' : l ≡ₚ l' → sumZ l = sumZ l'.
Proof. unfold sumZ. induction 1; simpl; lia. Qed.

Lemma total_Permutation (l l' : list Z) :
  l ≡ₚ l' →
  total l = total l'.
Proof.
  unfold total. intros H. destruct l as [|x l].
  - apply Permutation_nil_l in H. by subst.
  - destruct l' as [|x' l']; [by apply Permutation_nil_r in H|].
    by rewrite (sumZ_Permutation _ _ H).
Qed.

Lemma accumulate_lookup_fresh ps a :
  dict_get (accumulate ps []) a = total (filter (λ p, p.1 = a) ps).*2.
Proof. rewrite accumulate_lookup. simpl. by destruct (_.*2). Qed.

(** * The claims *)



(** C2. A stat job's five fields are each the value found in the stat
    group's own table, else in the default block, else the constant of
    that field: the empty string, the empty list, the empty list, the
    Unix epoch, and the clock's reading for this job. Fields resolve one
    by one: a key set in the stat group's table changes the resolution
    of no other key, which still falls through to the default block when
    the table lacks it. *)
Theorem fields_resolve_independently w default stat s s' job :
  resolve w default stat s = (s', Ok job) →
  ∃ stat_table default_table,
    stat = VTable stat_table ∧ default = VTable default_table ∧
    VStr (job_label job)
      = fallback stat_table default_table "label" (VStr EmptyString) ∧
    VList (job_repos job) = fallback stat_table default_table "repos" (VList []) ∧
    VList (job_filetypes job)
      = fallback stat_table default_table "filetypes" (VList []) ∧
    VDate (job_start job)
      = fallback stat_table default_table "start_date" (VDate epoch) ∧
    VDate (job_end job)
      = fallback stat_table default_table "end_date" (VDate (time_at w (clock s))) ∧
    (∀ field other v constant, field ≠ other →
       trygetitem [dict_set stat_table field v; default_table] other constant
       = trygetitem [stat_table; default_table] other constant) ∧
    (∀ field other v constant, field ≠ other → dict_get stat_table other = None →
       trygetitem [dict_set stat_table field v; default_table] other constant
       = trygetitem [default_table] other constant).
Proof.
  intros H. apply resolve_inv in H as (st & dt & -> & -> & Hl & Hr & Hf & Hs & He).
  exists st, dt. split_and!; try done.
  - intros field other v constant Hne. simpl. by rewrite dict_get_set_ne.
  - intros field other v constant Hne Hnone. simpl.
    by rewrite dict_get_set_ne, Hnone.
Qed.

Lemma fields_resolve_independently_witness :
  ∃ job, (resolve (demo_world (inl two_jobs)) demo_default (demo_stat "a" "o/a")
            initial).2 = Ok job ∧
         job_label job = "a" ∧ job_filetypes job = [VStr "ts"] ∧
         job_end job = 1700000000.
Proof.
  destruct (fields_resolve_independently (demo_world (inl two_jobs)) demo_default
              (demo_stat "a" "o/a") initial _ _ eq_refl)
    as (st & dt & Hst & Hdt & Hl & _ & Hf & _ & He & _).
  eexists. split; [reflexivity|].
  injection Hst as <-. injection Hdt as <-. split_and!; reflexivity.
Defined.




(** ** The run after the loop *)

Lemma run_of_prepare w args s0 file stats github default :
  prepare w args initial = (s0, Ok (file, stats, github, default)) →
  match process_stats w github default stats s0 with
  | (s1, Ok (label, output)) =>
      run w args =
      match write_output output file (args_output args) label
              (emit [Object output]
                 (emit [Line "[bold]done![/bold] output:" None] s1)) with
      | (s', Ok _) => (s', Exit 0)
      | (s', Stop o) => (s', o)
      end
  | (s1, Stop o) => run w args = (s1, o)
  end.
Proof.
  intros H. apply aggregate_loop in H.
  destruct (process_stats _ _ _ _ _) as [s1 [[l o]|o]].
  - by apply run_ok in H.
  - by apply run_stop in H.
Qed.

Lemma run_of_prepare_stop w args s o :
  prepare w args initial = (s, Stop o) → run w args = (s, o).
Proof. intros H. by apply run_stop, aggregate_stop. Qed.

Lemma written_emit msgs s : written (emit msgs s) = written s.
Proof. unfold emit. by destruct (silent s). Qed.

Lemma calm_started_written quiet s : calm (started quiet) s → written s = [].
Proof. by intros (_ & -> & _). Qed.

Lemma loop_written w github default stats s0 s1 r quiet :
  calm (started quiet) s0 →
  process_stats w github default stats s0 = (s1, r) →
  written s1 = [] ∧ calm (started quiet) s1 ∧ ∀ o, r = Stop o → loop_stop github o.
Proof.
  intros Hc H. destruct (within_process_stats w github default stats s0) as [Hc1 Ho].
  rewrite H in Hc1, Ho. simpl in *.
  assert (calm (started quiet) s1) by by eapply calm_trans.
  split_and!; [by eapply calm_started_written | done | done].
Qed.

Lemma prepare_calm w args s0 r :
  prepare w args initial = (s0, r) → calm (started (args_silent args)) s0.
Proof.
  intros H.
  destruct (prepare_cases w args)
    as [(_ & s & Hs & Hc)|[(_ & _ & s & Hs & Hc)|[(_ & _ & _ & s & Hs & Hc)|
        (_ & _ & document & _ & [(_ & s & Hs & Hc)|(stats & s & file & _ & Hc & Hs)])]]];
    rewrite Hs in H; by injection H as <- _.
Qed.

Lemma stats_last (stats : list Value) :
  stats ≠ [] → ∃ before stat, stats = (before ++ [stat])%list.
Proof. destruct stats as [|x l] using rev_ind; [done | eauto]. Qed.

Lemma process_stats_nil w github default s :
  process_stats w github default [] s = (s, Ok (EmptyString, [])).
Proof. reflexivity. Qed.

(** * The claims about the whole run *)

(** C4. When two stat groups resolve to the same label, the table
    after the second has committed holds exactly one entry under that
    label, and its tally is the one a loop over the second group alone
    produces from the state the second group started in; the entry the
    earlier group left under the label is gone. *)
Theorem same_label_last_write_wins
    w github default before first between second l s s' label output :
  label_of default first = Some l →
  label_of default second = Some l →
  process_stats w github default (before ++ first :: between ++ [second]) s
    = (s', Ok (label, output)) →
  ∃ s1 acc tally,
    process_stats w github default (before ++ first :: between) s = (s1, Ok acc) ∧
    is_Some (dict_get acc.2 l) ∧
    process_stats w github default [second] s1 = (s', Ok (l, [(l, tally)])) ∧
    label = l ∧
    filter (λ e, e.1 = l) output = [(l, tally)] ∧
    dict_get output l = Some tally.
Proof.
  intros Hfirst Hsecond H.
  replace (before ++ first :: between ++ [second])%list
    with ((before ++ first :: between) ++ [second])%list in H
    by by rewrite <-app_assoc.
  apply process_stats_last in H as (s1 & acc & tally & Hacc & Halone & Hl & Hget & Hone).
  assert (label = l) as -> by congruence.
  exists s1, acc, tally. split_and!; try done.
  unfold process_stats in Hacc. rewrite foldM_app in Hacc.
  apply bind_inv_ok in Hacc as (s2 & acc0 & _ & Hacc). cbn [foldM] in Hacc.
  apply bind_inv_ok in Hacc as (s3 & [l1 t1] & H1 & Hacc).
  apply process_stat_inv in H1 as (tally1 & H1 & ->).
  apply stat_job_inv in H1 as (_ & _ & _ & _ & _ & _ & Hl1).
  assert (l1 = l) as -> by congruence. destruct acc as [l2 t2].
  eapply foldM_process_stat_keeps; [done|]. simpl. by rewrite dict_get_set_eq.
Qed.

Lemma same_label_last_write_wins_witness :
  ∃ s' output tally,
    process_stats (demo_world (inl same_label)) demo_github demo_default
      [demo_stat "a" "o/a"; demo_stat "a" "o/b"] initial = (s', Ok ("a", output)) ∧
    filter (λ e, e.1 = "a") output = [("a", tally)] ∧
    tally = [("bob", 5)].
Proof.
  destruct (same_label_last_write_wins (demo_world (inl same_label)) demo_github
              demo_default [] (demo_stat "a" "o/a") [] (demo_stat "a" "o/b") "a"
              initial _ _ _ eq_refl eq_refl eq_refl)
    as (s1 & acc & tally & _ & _ & _ & _ & Hone & Hget).
  eexists _, _, tally. split_and!; [reflexivity | exact Hone |].
  vm_compute in Hget. by injection Hget as <-.
Defined.

(** C5. When the output name ends in [csv] and at least one stat
    group was processed, the output file holds the header row
    [user,contrib] and then one row per author of the tally stored under
    the last label, in the tally's order, and nothing else; that tally
    is the one the last stat group alone produces. The tallies under
    every other label are absent from the file. *)
Theorem csv_holds_last_tally
    w args s0 file stats github default s1 label output :
  extension (args_output args) = "csv" →
  prepare w args initial = (s0, Ok (file, stats, github, default)) →
  stats ≠ [] →
  process_stats w github default stats s0 = (s1, Ok (label, output)) →
  ∃ before stat s2 acc tally,
    stats = (before ++ [stat])%list ∧
    label_of default stat = Some label ∧
    process_stats w github default before s0 = (s2, Ok acc) ∧
    process_stats w github default [stat] s2 = (s1, Ok (label, [(label, tally)])) ∧
    dict_get output label = Some tally ∧
    written (run w args).1 = csv_rows tally ∧
    (run w args).2 = Exit 0.
Proof.
  intros Hext Hprep Hne Hloop.
  destruct (stats_last stats Hne) as (before & stat & ->).
  pose proof (process_stats_last _ _ _ _ _ _ _ _ _ Hloop)
    as (s2 & acc & tally & Hacc & Halone & Hl & Hget & _).
  pose proof (run_of_prepare _ _ _ _ _ _ _ Hprep) as Hrun.
  rewrite Hloop in Hrun.
  rewrite (write_output_csv _ _ _ _ _ _ Hext Hget) in Hrun.
  exists before, stat, s2, acc, tally. rewrite Hrun. split_and!; try done.
  simpl. rewrite !written_emit.
  pose proof (prepare_calm _ _ _ _ Hprep) as Hc.
  by destruct (loop_written _ _ _ _ _ _ _ _ Hc Hloop) as (-> & _).
Qed.

Lemma csv_holds_last_tally_witness :
  written (run (demo_world (inl two_jobs)) (demo_args false "out.csv")).1
  = [Row ["user"; "contrib"]; Row ["bob"; "5"]].
Proof.
  destruct (csv_holds_last_tally (demo_world (inl two_jobs))
              (demo_args false "out.csv") _ _ _ _ _ _ _ _
              eq_refl eq_refl ltac:(discriminate) eq_refl)
    as (before & stat & s2 & acc & tally & _ & _ & _ & _ & Hget & Hwritten & _).
  rewrite Hwritten. vm_compute in Hget. injection Hget as <-. reflexivity.
Defined.

(** C10. Once a stat group has been processed, the label handed to
    the encoder is the label the last group resolved to and is a key of
    the table, so the CSV branch finds its tally and the run does not
    end in a [KeyError]. A run ends in a [KeyError] only when there was
    no stat group at all and the output name ends in [csv]: the label is
    then still the empty string, which the empty table does not hold. *)
Theorem csv_lookup_fails_only_without_stats
    w args s0 file stats github default :
  prepare w args initial = (s0, Ok (file, stats, github, default)) →
  (stats ≠ [] →
   ∀ s1 label output,
     process_stats w github default stats s0 = (s1, Ok (label, output)) →
     (∃ before stat,
        stats = (before ++ [stat])%list ∧ label_of default stat = Some label) ∧
     is_Some (dict_get output label) ∧
     ∀ key, (run w args).2 ≠ Uncaught (KeyError key)) ∧
  (∀ key, (run w args).2 = Uncaught (KeyError key) →
     stats = [] ∧ key = EmptyString ∧ extension (args_output args) = "csv" ∧
     process_stats w github default stats s0 = (s0, Ok (EmptyString, []))).
Proof.
  intros Hprep. pose proof (run_of_prepare _ _ _ _ _ _ _ Hprep) as Hrun.
  pose proof (prepare_calm _ _ _ _ Hprep) as Hc. split.
  - intros Hne s1 label output Hloop. rewrite Hloop in Hrun.
    destruct (stats_last stats Hne) as (before & stat & ->).
    pose proof (process_stats_last _ _ _ _ _ _ _ _ _ Hloop)
      as (s2 & acc & tally & _ & _ & Hl & Hget & _).
    split_and!; [eauto | by rewrite Hget |]. intros key.
    destruct (String.eqb_spec (extension (args_output args)) "csv") as [Hext|Hext].
    + rewrite (write_output_csv _ _ _ _ _ _ Hext Hget) in Hrun. by rewrite Hrun.
    + rewrite (write_output_whole _ _ _ _ _ Hext) in Hrun. by rewrite Hrun.
  - intros key Hkey.
    destruct (process_stats w github default stats s0) as [s1 [[label output]|o]] eqn:Hloop.
    + destruct (String.eqb_spec (extension (args_output args)) "csv") as [Hext|Hext].
      2:{ rewrite (write_output_whole _ _ _ _ _ Hext) in Hrun.
          by rewrite Hrun in Hkey. }
      destruct (dict_get output label) as [tally|] eqn:Hget.
      { rewrite (write_output_csv _ _ _ _ _ _ Hext Hget) in Hrun.
        by rewrite Hrun in Hkey. }
      rewrite (write_output_csv_missing _ _ _ _ _ Hext Hget) in Hrun.
      rewrite Hrun in Hkey. injection Hkey as <-.
      destruct stats as [|stat stats].
      * rewrite process_stats_nil in Hloop. by injection Hloop as <- <- <-.
      * destruct (stats_last (stat :: stats)) as (before & last & Heq); [done|].
        rewrite Heq in Hloop.
        apply process_stats_last in Hloop as (? & ? & ? & ? & ? & ? & Hsome & ?).
        congruence.
    + rewrite Hrun in Hkey. simpl in Hkey. subst o.
      destruct (loop_written _ _ _ _ _ _ _ _ Hc Hloop) as (_ & _ & Ho).
      by destruct (Ho _ eq_refl) as [[? _]|?].
Qed.

Lemma csv_lookup_fails_only_without_stats_witness :
  (run (demo_world (inl no_stats)) (demo_args false "out.csv")).2
    = Uncaught (KeyError EmptyString) ∧
  trygetitem [no_stats] "stats" (VList []) = VList [] ∧
  (run (demo_world (inl two_jobs)) (demo_args false "out.csv")).2 = Exit 0.
Proof.
  destruct (csv_lookup_fails_only_without_stats (demo_world (inl no_stats))
              (demo_args false "out.csv") _ _ _ _ _ eq_refl) as [_ Hempty].
  destruct (Hempty EmptyString eq_refl) as (Hstats & _ & _ & _).
  split_and!; reflexivity.
Defined.

(** C6 does not hold for a CSV target: without a stat group the
    table is empty and the label is the empty string, so after the
    header row the lookup of the label raises [KeyError]; the run ends
    with an uncaught exception and status 1, not with status 0. *)
Theorem empty_stats_csv_raises w args s0 file github default :
  prepare w args initial = (s0, Ok (file, [], github, default)) →
  extension (args_output args) = "csv" →
  (run w args).2 = Uncaught (KeyError EmptyString) ∧
  exit_status (run w args).2 = 1 ∧
  written (run w args).1 = [Row ["user"; "contrib"]].
Proof.
  intros Hprep Hext. pose proof (run_of_prepare _ _ _ _ _ _ _ Hprep) as Hrun.
  rewrite process_stats_nil in Hrun.
  rewrite (write_output_csv_missing [] _ _ EmptyString _ Hext eq_refl) in Hrun.
  rewrite Hrun. split_and!; [done..|]. simpl. rewrite !written_emit.
  by rewrite (calm_started_written _ _ (prepare_calm _ _ _ _ Hprep)).
Qed.

Lemma empty_stats_csv_raises_witness :
  (run (demo_world (inl no_stats)) (demo_args true "out.csv")).2
    = Uncaught (KeyError EmptyString) ∧
  exit_status (run (demo_world (inl no_stats)) (demo_args true "out.csv")).2 = 1 ∧
  written (run (demo_world (inl no_stats)) (demo_args true "out.csv")).1
    = [Row ["user"; "contrib"]].
Proof.
  exact (empty_stats_csv_raises (demo_world (inl no_stats))
           (demo_args true "out.csv") _ _ _ _ eq_refl eq_refl).
Defined.

(** Without a stat group, every other target gets the empty table and
    the run ends with status 0. *)
Lemma empty_stats_other_targets w args s0 file github default :
  prepare w args initial = (s0, Ok (file, [], github, default)) →
  extension (args_output args) ≠ "csv" →
  (run w args).2 = Exit 0 ∧
  written (run w args).1 = [Text (encoder_of (args_output args)) []].
Proof.
  intros Hprep Hext. pose proof (run_of_prepare _ _ _ _ _ _ _ Hprep) as Hrun.
  rewrite process_stats_nil in Hrun.
  rewrite (write_output_whole _ _ _ _ _ Hext) in Hrun.
  rewrite Hrun. split; [done|]. simpl. rewrite !written_emit.
  by rewrite (calm_started_written _ _ (prepare_calm _ _ _ _ Hprep)).
Qed.

(** ** The outcome of a run, class by class *)

Lemma process_stats_unresolved
    w github default before stat after s s1 acc s2 job pre r post rs :
  process_stats w github default before s = (s1, Ok acc) →
  resolve w default stat s1 = (s2, Ok job) →
  job_repos job = (pre ++ VStr r :: post)%list →
  repositories github pre = Some rs →
  get_repo github r = None →
  ∃ s', process_stats w github default (before ++ stat :: after) s
        = (s', Stop (Exit 4)).
Proof.
  intros Hbefore Hjob Hrepos Hrs Hr. unfold process_stats in *.
  rewrite foldM_app, (bind_ok _ _ _ _ _ Hbefore). cbn [foldM].
  unfold process_stat at 1, stat_job.
  destruct (collect_unresolved github job pre r post rs
              (emit [Line ("[bold blue]processing:[/bold blue] " +:+ job_label job)
                       None] s2) Hrepos Hrs Hr) as [s' Hstop].
  exists s'. erewrite bind_stop; [done|]. erewrite bind_stop; [done|].
  rewrite (bind_ok _ _ _ _ _ Hjob). step. by erewrite bind_stop.
Qed.

Lemma write_output_cases output file name label s :
  ∃ cs, (write_output output file name label s).1 = wrote cs s ∧
        ((write_output output file name label s).2 = Ok tt ∨
         (write_output output file name label s).2 = Stop (Uncaught (KeyError label))).
Proof.
  destruct (String.eqb_spec (extension name) "csv") as [Hext|Hext].
  - destruct (dict_get output label) as [tally|] eqn:Hget.
    + rewrite (write_output_csv _ _ _ _ _ _ Hext Hget). eauto.
    + rewrite (write_output_csv_missing _ _ _ _ _ Hext Hget). eauto.
  - rewrite (write_output_whole _ _ _ _ _ Hext). eauto.
Qed.

(** Every run falls in one class, and the class fixes the outcome. *)
Lemma run_classes w args :
  (input_fails w args ∧ (run w args).2 = Exit 1 ∧
   calm (started (args_silent args)) (run w args).1) ∨
  (¬ input_fails w args ∧ output_fails w args ∧ (run w args).2 = Exit 2 ∧
   calm (started (args_silent args)) (run w args).1) ∨
  (¬ input_fails w args ∧ ¬ output_fails w args ∧ parse_fails w args ∧
   (run w args).2 = Exit 3 ∧ calm (started (args_silent args)) (run w args).1) ∨
  (¬ input_fails w args ∧ ¬ output_fails w args ∧ ¬ parse_fails w args ∧
   (((run w args).2 = Exit 4 ∧
     calm (started (args_silent args)) (run w args).1 ∧
     ∃ s0 file stats github default r,
       prepare w args initial = (s0, Ok (file, stats, github, default)) ∧
       get_repo github r = None) ∨
    ((run w args).2 = Uncaught TypeError ∧
     calm (started (args_silent args)) (run w args).1) ∨
    (((run w args).2 = Exit 0 ∨ ∃ key, (run w args).2 = Uncaught (KeyError key)) ∧
     ∃ s cs, calm (started (args_silent args)) s ∧ (run w args).1 = wrote cs s))).
Proof.
  destruct (prepare_cases w args)
    as [(Hin & s & Hs & Hc)|[(Hin & Hout & s & Hs & Hc)|
        [(Hin & Hout & Hparse & s & Hs & Hc)|
         (Hin & Hout & document & Hdoc &
          [(_ & s & Hs & Hc)|(stats & s0 & file & _ & Hc & Hs)])]]].
  - left. by rewrite (run_of_prepare_stop _ _ _ _ Hs).
  - right. left. by rewrite (run_of_prepare_stop _ _ _ _ Hs).
  - do 2 right. left. by rewrite (run_of_prepare_stop _ _ _ _ Hs).
  - do 3 right. split_and!; [done | done | |].
    { intros [e He]. congruence. }
    right. left. by rewrite (run_of_prepare_stop _ _ _ _ Hs).
  - do 3 right. split_and!; [done | done | |].
    { intros [e He]. congruence. }
    pose proof (run_of_prepare _ _ _ _ _ _ _ Hs) as Hrun.
    destruct (process_stats _ _ _ _ _) as [s1 [[label output]|o]] eqn:Hloop.
    + do 2 right.
      destruct (loop_written _ _ _ _ _ _ _ _ Hc Hloop) as (_ & Hc1 & _).
      destruct (write_output_cases output file (args_output args) label
                  (emit [Object output]
                     (emit [Line "[bold]done![/bold] output:" None] s1)))
        as (cs & Hstate & Hres).
      destruct (write_output _ _ _ _ _) as [s' r]. simpl in *. subst s'.
      split.
      * destruct Hres as [->| ->]; rewrite Hrun; eauto.
      * eexists _, cs. split; [|by destruct Hres as [->| ->]; rewrite Hrun].
        eapply calm_trans; [done|]. eapply calm_trans; apply calm_emit.
    + rewrite Hrun.
      destruct (loop_written _ _ _ _ _ _ _ _ Hc Hloop) as (_ & Hc1 & Ho).
      destruct (Ho _ eq_refl) as [[-> [r Hr]]| ->]; [left | right; left]; [|done].
      split_and!; [done..|]. eauto 10.
Qed.



(** ** A silent run prints nothing *)

Lemma run_hushed w args :
  args_silent args = true → console (run w args).1 = [].
Proof.
  intros Hq.
  assert (∀ s, calm (started (args_silent args)) s → console s = []) as Hcalm.
  { intros s (_ & _ & Hc). rewrite Hq in Hc. by apply Hc. }
  destruct (run_classes w args)
    as [(_ & _ & Hc)|[(_ & _ & _ & Hc)|[(_ & _ & _ & _ & Hc)|
        (_ & _ & _ & [(_ & Hc & _)|[(_ & Hc)|(_ & s & cs & Hc & ->)]])]]];
    simpl; auto.
Qed.


(** ** The program on small inputs *)

Example split_two : split "."%char "src/app.test.ts" = ["src/app"; "test"; "ts"].
Proof. reflexivity. Qed.

Example split_trailing : split "."%char "a." = ["a"; EmptyString].
Proof. reflexivity. Qed.

Example extension_ts : extension "src/app.test.ts" = "ts".
Proof. reflexivity. Qed.

Example extension_none : extension "Makefile" = "Makefile".
Proof. reflexivity. Qed.

Example addornewitem_twice :
  addornewitem (addornewitem (addornewitem [] "alice" 3) "bob" 5) "alice" 4
  = [("alice", 7); ("bob", 5)].
Proof. reflexivity. Qed.

(** One job, one repository, the filter [ts]: a commit by Alice
    touching [x.ts] (+4) and [y.py] (+9), and a commit without an author
    touching [z.ts] (+2). *)
Example end_to_end : (collect demo_github e2e_job initial).2 = Ok [("Alice", 4)].
Proof. reflexivity. Qed.

Example two_jobs_json :
  written (run (demo_world (inl two_jobs)) (demo_args true "out.json")).1
  = [Text json_dumps [("a", [("alice", 3)]); ("b", [("bob", 5)])]].
Proof. reflexivity. Qed.

Example no_stats_toml :
  run (demo_world (inl no_stats)) (demo_args true "out.toml")
  = ({| silent := true; console := []; written := [Text toml_dumps []];
        clock := 0 |}, Exit 0).
Proof. reflexivity. Qed.

(** * Further properties *)

(** ** [trygetitem] on any list of tables *)

(** X1. [trygetitem] returns the value the first table that has the
    key holds, whatever the tables after it hold, and the default when
    no table has the key. *)
Theorem trygetitem_first_table_wins {V : Type} (tables : list (dict V))
    (item : string) (default : V) :
  (Forall (λ table, dict_get table item = None) tables →
   trygetitem tables item default = default) ∧
  (∀ before table after v,
     tables = (before ++ table :: after)%list →
     Forall (λ table, dict_get table item = None) before →
     dict_get table item = Some v →
     trygetitem tables item default = v).
Proof.
  split.
  - induction 1 as [|table tables Hmiss _ IH]; simpl; [done|]. by rewrite Hmiss.
  - intros before table after v -> Hbefore Hv.
    induction Hbefore as [|t before Hmiss _ IH]; simpl.
    + by rewrite Hv.
    + by rewrite Hmiss.
Qed.

(** X2. Looking a key up in two lists of tables one after the other is
    looking it up in the first list with the second list's result as
    the default. *)
Theorem trygetitem_app {V : Type} (tables1 tables2 : list (dict V))
    (item : string) (default : V) :
  trygetitem (tables1 ++ tables2) item default
  = trygetitem tables1 item (trygetitem tables2 item default).
Proof.
  induction tables1 as [|table tables1 IH]; simpl; [done|].
  by destruct (dict_get table item).
Qed.

(** ** [addornewitem] and the tally it builds *)

Lemma dict_get_is_Some {V : Type} (d : dict V) k :
  is_Some (dict_get d k) ↔ k ∈ keys d.
Proof.
  rewrite <-not_eq_None_Some, dict_get_None.
  destruct (decide (k ∈ keys d)); naive_solver.
Qed.

Lemma keys_addornewitem (table : dict Z) item value :
  keys (addornewitem table item value)
  = (if bool_decide (item ∈ keys table) then keys table
     else (keys table ++ [item])%list).
Proof.
  unfold addornewitem. destruct (dict_get table item) as [old|] eqn:Hget.
  - rewrite keys_set, Hget, bool_decide_eq_true_2; [done|].
    apply dict_get_is_Some. by rewrite Hget.
  - rewrite keys_set, Hget, bool_decide_eq_false_2; [done|].
    by apply dict_get_None.
Qed.

(** X3. [addornewitem] keeps every author where it is: the keys stay as
    they are when the author is known and get the author appended when
    it is new; no other author's total changes, and distinct keys stay
    distinct. *)
Theorem addornewitem_keeps_other_entries (table : dict Z) (item : string)
    (value : Z) :
  keys (addornewitem table item value)
    = (if bool_decide (item ∈ keys table) then keys table
       else (keys table ++ [item])%list) ∧
  (∀ other, other ≠ item →
     dict_get (addornewitem table item value) other = dict_get table other) ∧
  (NoDup (keys table) → NoDup (keys (addornewitem table item value))).
Proof.
  split_and!.
  - apply keys_addornewitem.
  - intros other Hne. rewrite dict_get_addornewitem. by rewrite decide_False.
  - intros Hnd. unfold addornewitem.
    destruct (dict_get table item); by apply NoDup_keys_set.
Qed.

(** ** What the collector prints *)

Lemma emit_nil s : emit [] s = s.
Proof. unfold emit. destruct s as [[] c wr k]; simpl; by rewrite ?app_nil_r. Qed.

Lemma emit_emit msgs1 msgs2 s : emit msgs2 (emit msgs1 s) = emit (msgs1 ++ msgs2) s.
Proof.
  unfold emit. destruct (silent s) eqn:Hs; simpl; rewrite ?Hs; [done|].
  by rewrite app_assoc.
Qed.

Lemma emit_loud msgs s : silent s = false → emit msgs s = say msgs s.
Proof. unfold emit, say. intros ->. reflexivity. Qed.

Lemma emit_silent msgs s : silent s = true → emit msgs s = s.
Proof. unfold emit. intros ->. reflexivity. Qed.

Lemma clock_emit msgs s : clock (emit msgs s) = clock s.
Proof. unfold emit. by destruct (silent s). Qed.

Lemma silent_emit msgs s : silent (emit msgs s) = silent s.
Proof. unfold emit. by destruct (silent s) eqn:Hs. Qed.

Lemma process_files_exact filetypes a fs t s :
  foldM (process_file filetypes a) fs t s
  = (emit (report a <$> filter (λ f, counted filetypes f) fs) s,
     Ok (accumulate ((λ f, (a, changes f))
                     <$> filter (λ f, counted filetypes f) fs) t)).
Proof.
  revert t s. induction fs as [|f fs IH]; intros t s.
  { simpl. by rewrite emit_nil. }
  rewrite filter_cons. cbn [foldM]. unfold bind at 1, process_file at 1.
  fold (counted filetypes f).
  destruct (counted filetypes f) eqn:Hf; simpl; rewrite IH; [|done].
  by rewrite emit_emit.
Qed.

Lemma process_commits_exact filetypes cs t s :
  foldM (process_commit filetypes) cs t s
  = (emit (cs ≫= commit_lines filetypes) s, Ok (accumulate (pairs filetypes cs) t)).
Proof.
  revert t s. induction cs as [|c cs IH]; intros t s.
  { simpl. by rewrite emit_nil. }
  unfold pairs, accumulate. rewrite !bind_cons, foldl_app. cbn [foldM].
  assert (process_commit filetypes t c s
          = (emit (commit_lines filetypes c) s,
             Ok (accumulate (commit_pairs filetypes c) t))) as Hc.
  { unfold process_commit, commit_pairs, commit_lines, author_name.
    destruct (author c) as [user|]; [|by rewrite emit_nil].
    destruct (name user) as [a|]; [|by rewrite emit_nil].
    apply process_files_exact. }
  rewrite (bind_ok _ _ _ _ _ Hc), IH. by rewrite emit_emit.
Qed.

Lemma process_repo_exact github filetypes start end_ t r s :
  process_repo github filetypes start end_ t (VStr r) s
  = match get_repo github r with
    | Some repo =>
        (emit (Line ("[bold blue]processing repo:[/bold blue] " +:+ r) None
               :: (get_commits repo start end_ ≫= commit_lines filetypes)) s,
         Ok (accumulate (pairs filetypes (get_commits repo start end_)) t))
    | None =>
        (emit [Line ("[bold blue]processing repo:[/bold blue] " +:+ r) None;
               Line ("unable to get " +:+ r) alert] s,
         Stop (Exit 4))
    end.
Proof.
  unfold process_repo. do 2 step. destruct (get_repo github r) as [repo|].
  - step. rewrite process_commits_exact. by rewrite emit_emit.
  - erewrite bind_stop; [|by step]. by rewrite emit_emit.
Qed.

Lemma process_repos_state github filetypes start end_ repos t s :
  (foldM (process_repo github filetypes start end_) repos t s).1
  = emit (collect_lines github filetypes start end_ repos) s.
Proof.
  revert t s. induction repos as [|v repos IH]; intros t s.
  { simpl. by rewrite emit_nil. }
  cbn [foldM]. unfold bind.
  destruct v as [r| | | | |]; try (simpl; by rewrite emit_nil).
  rewrite process_repo_exact. cbn [collect_lines].
  destruct (get_repo github r) as [repo|]; [|done].
  rewrite IH, emit_emit. by rewrite app_comm_cons.
Qed.

Lemma collector_state github job s :
  (collect github job s).1
  = emit (collect_lines github (job_filetypes job) (job_start job) (job_end job)
            (job_repos job)) s.
Proof. apply process_repos_state. Qed.


(** ** Invariants of the tally *)

Lemma dict_get_elem {V : Type} (d : dict V) k v : dict_get d k = Some v → (k, v) ∈ d.
Proof.
  induction d as [|[k0 v0] d IH]; simpl; [done|].
  destruct (String.eqb_spec k0 k) as [->|_].
  - intros [= ->]. apply list_elem_of_here.
  - intros H. apply list_elem_of_further. by apply IH.
Qed.

Lemma Forall_dict_set {V : Type} (Q : V → Prop) (d : dict V) k v :
  Forall (λ e, Q e.2) d → Q v → Forall (λ e, Q e.2) (dict_set d k v).
Proof.
  intros Hd Hv. induction Hd as [|[k0 v0] d H0 Hd IH]; simpl.
  - by repeat constructor.
  - destruct (String.eqb k0 k); by constructor.
Qed.

Lemma accumulate_nonnegative ps t :
  Forall (λ p, (0 ≤ p.2)%Z) ps → Forall (λ e, (0 ≤ e.2)%Z) t →
  Forall (λ e, (0 ≤ e.2)%Z) (accumulate ps t).
Proof.
  unfold accumulate. intros Hps. revert t.
  induction Hps as [|[a v] ps Hv _ IH]; intros t Ht; [done|].
  simpl. apply IH. unfold tally_step, addornewitem. simpl in *.
  destruct (dict_get t a) as [old|] eqn:Hget.
  - apply (Forall_dict_set (λ x, (0 ≤ x)%Z)); [done|].
    apply dict_get_elem in Hget. rewrite Forall_forall in Ht.
    specialize (Ht _ Hget). simpl in Ht. lia.
  - by apply (Forall_dict_set (λ x, (0 ≤ x)%Z)).
Qed.

Lemma elem_of_pairs filetypes cs a v :
  (a, v) ∈ pairs filetypes cs →
  ∃ c f, c ∈ cs ∧ f ∈ files c ∧ counted filetypes f = true ∧
         author_name c = Some a ∧ v = changes f.
Proof.
  unfold pairs. intros (c & Hin & Hc)%list_elem_of_bind. unfold commit_pairs in Hin.
  destruct (author_name c) as [b|] eqn:Hb; [|by apply not_elem_of_nil in Hin].
  apply list_elem_of_fmap in Hin as (f & [= -> ->] & Hf).
  apply list_elem_of_filter in Hf as [Hcount Hf].
  exists c, f. split_and!; try done. by apply Is_true_true.
Qed.

Lemma keys_accumulate ps t :
  keys (accumulate ps t) = seen_after (keys t) ps.*1.
Proof.
  unfold accumulate, seen_after. revert t.
  induction ps as [|[a v] ps IH]; intros t; [done|].
  csimpl. rewrite IH. unfold tally_step. simpl. by rewrite keys_addornewitem.
Qed.

Lemma sumZ_app l1 l2 : sumZ (l1 ++ l2) = sumZ l1 + sumZ l2.
Proof. unfold sumZ. induction l1 as [|x l1 IH]; simpl; lia. Qed.

Lemma sumZ_cons x l : sumZ (x :: l) = x + sumZ l.
Proof. reflexivity. Qed.

Lemma sumZ_dict_set (t : dict Z) a x :
  sumZ (dict_set t a x).*2 = sumZ t.*2 - default 0 (dict_get t a) + x.
Proof.
  unfold sumZ. induction t as [|[k0 v0] t IH]; csimpl; [lia|].
  destruct (String.eqb_spec k0 a) as [->|Hne]; csimpl; lia.
Qed.

Lemma sumZ_addornewitem t a v :
  sumZ (addornewitem t a v).*2 = sumZ t.*2 + v.
Proof.
  unfold addornewitem. destruct (dict_get t a) as [old|] eqn:Hget;
    rewrite sumZ_dict_set, Hget; simpl; lia.
Qed.

Lemma sumZ_accumulate ps t :
  sumZ (accumulate ps t).*2 = sumZ t.*2 + sumZ ps.*2.
Proof.
  unfold accumulate. revert t. induction ps as [|[a v] ps IH]; intros t.
  - unfold sumZ. simpl. lia.
  - cbn [foldl]. rewrite IH. unfold tally_step.
    rewrite sumZ_addornewitem, fmap_cons, sumZ_cons. simpl. lia.
Qed.







(** ** One stat group *)



Lemma resolve_state w default stat s s' job :
  resolve w default stat s = (s', Ok job) → s' = tick s.
Proof.
  unfold resolve. intros H.
  apply bind_inv_ok in H as (? & st & [-> ->]%as_table_inv & H).
  apply bind_inv_ok in H as (? & dt & [-> ->]%as_table_inv & H).
  cbv zeta in H.
  apply bind_inv_ok in H as (? & l & [Hl ->]%as_str_inv & H).
  apply bind_inv_ok in H as (? & rs & [Hrs ->]%as_list_inv & H).
  apply bind_inv_ok in H as (? & fs & [Hfs ->]%as_list_inv & H).
  apply bind_inv_ok in H as (? & t1 & [Ht1 ->]%as_date_inv & H).
  apply bind_inv_ok in H as (? & now & [= <- <-] & H).
  apply bind_inv_ok in H as (? & t2 & [Ht2 ->]%as_date_inv & H).
  by injection H as <- _.
Qed.

Lemma stat_job_state w github default stat s s' label authors :
  stat_job w github default stat s = (s', Ok (label, authors)) →
  ∃ job, resolve w default stat s = (tick s, Ok job) ∧ job_label job = label ∧
    s' = emit (Line ("[bold blue]processing:[/bold blue] " +:+ label) None
               :: collect_lines github (job_filetypes job) (job_start job)
                    (job_end job) (job_repos job)) (tick s).
Proof.
  unfold stat_job. intros H.
  apply bind_inv_ok in H as (s1 & job & Hjob & H).
  pose proof (resolve_state _ _ _ _ _ _ Hjob) as ->.
  apply bind_inv_ok in H as (s2 & [] & [= <-] & H).
  apply bind_inv_ok in H as (s3 & t & Ht & [= <- <- <-]).
  exists job. split_and!; [done..|].
  pose proof (collector_state github job
                (emit [Line ("[bold blue]processing:[/bold blue] " +:+ job_label job)
                         None] (tick s))) as Hs.
  rewrite Ht in Hs. simpl in Hs. by rewrite Hs, emit_emit.
Qed.

(** ** The loop over the stat groups, again *)

Lemma written_tick s : written (tick s) = written s.
Proof. reflexivity. Qed.

Lemma foldM_process_stat_clock w github default stats acc s s' r :
  foldM (process_stat w github default) stats acc s = (s', Ok r) →
  clock s' = (clock s + length stats)%nat ∧ written s' = written s ∧
  silent s' = silent s.
Proof.
  revert acc s. induction stats as [|stat stats IH]; intros acc s H.
  - injection H as <- _. split_and!; [simpl; lia | done..].
  - cbn [foldM] in H. apply bind_inv_ok in H as (s1 & [l t] & H1 & H).
    apply process_stat_inv in H1 as (authors & H1 & _).
    apply stat_job_state in H1 as (job & _ & _ & ->).
    apply IH in H as (-> & -> & ->).
    rewrite clock_emit, written_emit, silent_emit. simpl. split_and!; [lia | done..].
Qed.

(** X9. A loop over the stat groups that completes has read the clock
    once for every stat group, whether or not the group gives an end
    date, and has written nothing to the output file. *)
Theorem clock_read_once_per_stat_group w github default stats s s' r :
  process_stats w github default stats s = (s', Ok r) →
  clock s' = (clock s + length stats)%nat ∧ written s' = written s.
Proof.
  intros H. by apply foldM_process_stat_clock in H as (? & ? & _).
Qed.

Lemma clock_read_once_per_stat_group_witness :
  clock (process_stats (demo_world (inl two_jobs)) demo_github demo_default
           [demo_stat "a" "o/a"; demo_stat "b" "o/b"] initial).1 = 2%nat.
Proof.
  destruct (clock_read_once_per_stat_group (demo_world (inl two_jobs)) demo_github
              demo_default [demo_stat "a" "o/a"; demo_stat "b" "o/b"] initial
              _ _ eq_refl) as [Hclock _].
  exact Hclock.
Defined.

(** X10. The loop ends with the first stat group that stops: when the
    groups before it complete and it stops with some outcome, the loop
    stops with that outcome in the state that group left, whatever
    groups follow. *)
Theorem loop_stops_with_first_failure
    w github default before stat after s s1 acc s2 o :
  process_stats w github default before s = (s1, Ok acc) →
  stat_job w github default stat s1 = (s2, Stop o) →
  process_stats w github default (before ++ stat :: after) s = (s2, Stop o).
Proof.
  intros Hbefore Hstop. unfold process_stats in *.
  rewrite foldM_app, (bind_ok _ _ _ _ _ Hbefore). cbn [foldM].
  erewrite bind_stop; [done|]. unfold process_stat. by erewrite bind_stop.
Qed.

Lemma loop_stops_with_first_failure_witness :
  (process_stats (demo_world (inl lost_repo)) demo_github demo_default
     [demo_stat "a" "o/a"; demo_stat "b" "o/gone"; demo_stat "c" "o/b"]
     initial).2 = Stop (Exit 4).
Proof.
  exact (f_equal snd
           (loop_stops_with_first_failure (demo_world (inl lost_repo)) demo_github
              demo_default [demo_stat "a" "o/a"] (demo_stat "b" "o/gone")
              [demo_stat "c" "o/b"] initial _ _ _ (Exit 4) eq_refl eq_refl)).
Defined.

Lemma elem_of_seen_after seen l x :
  x ∈ seen_after seen l ↔ x ∈ seen ∨ x ∈ l.
Proof.
  unfold seen_after. revert seen. induction l as [|y l IH]; intros seen; simpl.
  - rewrite elem_of_nil. tauto.
  - rewrite IH, elem_of_cons. case_bool_decide as Hy.
    + split; [tauto|]. intros [?|[->|?]]; tauto.
    + rewrite elem_of_app, list_elem_of_singleton. tauto.
Qed.

Lemma length_seen_after seen l :
  (length (seen_after seen l) ≤ length seen + length l)%nat.
Proof.
  unfold seen_after. revert seen. induction l as [|y l IH]; intros seen; simpl.
  - lia.
  - etrans; [apply IH|]. case_bool_decide; rewrite ?length_app; simpl; lia.
Qed.

Lemma foldM_process_stat_keys w github default stats acc s s' label output :
  foldM (process_stat w github default) stats acc s = (s', Ok (label, output)) →
  ∃ labels,
    mapM (label_of default) stats = Some labels ∧
    keys output = seen_after (keys acc.2) labels ∧
    label = from_option id acc.1 (last labels).
Proof.
  revert acc s. induction stats as [|stat stats IH]; intros acc s H.
  - injection H as <- ->. by exists [].
  - cbn [foldM] in H. apply bind_inv_ok in H as (s1 & [l t] & H1 & H).
    apply process_stat_inv in H1 as (authors & H1 & ->).
    apply stat_job_inv in H1 as (_ & _ & _ & _ & _ & _ & Hl).
    apply IH in H as (labels & Hlabels & Hkeys & Hlast). simpl in *.
    exists (l :: labels). split_and!.
    + cbn. rewrite Hl. simpl. by rewrite Hlabels.
    + rewrite Hkeys, keys_set. unfold seen_after. simpl.
      destruct (dict_get acc.2 l) as [old|] eqn:Hget.
      * rewrite bool_decide_eq_true_2; [done|].
        apply dict_get_is_Some. by rewrite Hget.
      * rewrite bool_decide_eq_false_2; [done|]. by apply dict_get_None.
    + rewrite Hlast. destruct labels as [|l' labels _] using rev_ind; [done|].
      by rewrite app_comm_cons, !last_snoc.
Qed.

(** X11. The labels of the table stand in the order in which the stat
    groups first resolved to them, each label once, so the table has at
    most as many entries as there are stat groups; every group's label
    is a key, and the label left in the loop variable is the last
    group's. *)
Theorem table_keys_follow_stat_groups w github default stats s s' label output :
  process_stats w github default stats s = (s', Ok (label, output)) →
  ∃ labels,
    mapM (label_of default) stats = Some labels ∧
    keys output = first_seen labels ∧
    (∀ l, l ∈ labels → is_Some (dict_get output l)) ∧
    (length output ≤ length stats)%nat ∧
    label = from_option id EmptyString (last labels).
Proof.
  intros H. apply foldM_process_stat_keys in H as (labels & Hlabels & Hkeys & Hlast).
  exists labels. split_and!; [done | done | | | done].
  - intros l Hl. apply dict_get_is_Some. rewrite Hkeys.
    apply elem_of_seen_after. by right.
  - assert (length output = length (keys output)) as ->
      by (unfold keys; by rewrite length_fmap).
    rewrite Hkeys. etrans; [apply length_seen_after|]. simpl.
    apply length_mapM in Hlabels. lia.
Qed.

Lemma table_keys_follow_stat_groups_witness :
  ∃ s' label output,
    process_stats (demo_world (inl same_label)) demo_github demo_default
      [demo_stat "b" "o/b"; demo_stat "a" "o/a"; demo_stat "b" "o/a"] initial
    = (s', Ok (label, output)) ∧
    keys output = ["b"; "a"].
Proof.
  eexists _, _, _. split; [reflexivity|].
  destruct (table_keys_follow_stat_groups (demo_world (inl same_label)) demo_github
              demo_default
              [demo_stat "b" "o/b"; demo_stat "a" "o/a"; demo_stat "b" "o/a"]
              initial _ _ _ eq_refl) as (labels & Hlabels & Hkeys & _).
  vm_compute in Hlabels. injection Hlabels as <-. exact Hkeys.
Defined.

(** ** The extension of a dotted name *)

Lemma split_app_sep sep (a b : string) :
  split sep (a +:+ String sep b) = (split sep a ++ split sep b)%list.
Proof.
  induction a as [|c a IH].
  - rewrite append_nil. simpl. by rewrite Ascii.eqb_refl.
  - rewrite append_cons. simpl. rewrite IH.
    destruct (Ascii.eqb c sep); [done|].
    pose proof (split_not_nil sep a). by destruct (split sep a).
Qed.

Lemma split_without_sep sep (e : string) :
  has_char sep e = false → split sep e = [e].
Proof.
  induction e as [|c e IH]; simpl; [done|].
  intros [Hc He]%orb_false_elim. rewrite Hc, IH; done.
Qed.

(** X12. Whatever stands before the last dot, the extension of a name
    is what follows it: for an [e] without a dot, [prefix.e] has the
    extension [e], and so has [e] itself. *)
Theorem extension_of_dotted_name (prefix e : string) :
  has_char "." e = false →
  extension (prefix +:+ "." +:+ e) = e ∧ extension e = e.
Proof.
  intros He. unfold extension, last_item.
  change ("." +:+ e) with (String "."%char e).
  rewrite split_app_sep, !(split_without_sep "." e He).
  by rewrite last_snoc.
Qed.

Lemma extension_of_dotted_name_witness :
  extension ("archive.tar" +:+ "." +:+ "gz") = "gz" ∧ extension "gz" = "gz".
Proof. exact (extension_of_dotted_name "archive.tar" "gz" eq_refl). Defined.

(** ** The warnings before collection *)

Lemma supported_extension (x : string) :
  bool_decide (x ∈ ["toml"; "json"; "csv"])
  = String.eqb x "toml" || String.eqb x "json" || String.eqb x "csv".
Proof.
  destruct (String.eqb_spec x "toml") as [->|H1]; [done|].
  destruct (String.eqb_spec x "json") as [->|H2]; [done|].
  destruct (String.eqb_spec x "csv") as [->|H3]; [done|].
  apply bool_decide_eq_false_2.
  rewrite !elem_of_cons, elem_of_nil. tauto.
Qed.

Lemma filetype_check_run name n s :
  filetype_check name n s = (emit (preflight name n) s, Ok tt).
Proof.
  unfold filetype_check, preflight, encoder_of.
  destruct (String.eqb name "-"); [by rewrite emit_nil|].
  cbv zeta. rewrite supported_extension.
  destruct (String.eqb (extension name) "csv") eqn:Hcsv.
  - rewrite orb_true_r. cbn [andb negb].
    case_bool_decide; step; [reflexivity|]. by rewrite emit_nil.
  - cbn [andb]. step. rewrite orb_false_r.
    destruct (String.eqb (extension name) "toml"); [simpl; by rewrite emit_nil|].
    destruct (String.eqb (extension name) "json"); [simpl; by rewrite emit_nil|].
    reflexivity.
Qed.

(** X13. [filetype_check] warns exactly of what [write_output] will do
    with the same output name: of the loss of all tallies but the last
    when the name selects CSV and there is more than one stat group, of
    the fallback format when the name selects neither TOML, JSON nor
    CSV. For the name ["-"] it warns of nothing, though the fallback
    format is what standard output gets. It never stops the run. *)
Theorem preflight_warns_of_what_the_encoder_does name n output file label s :
  filetype_check name n s = (emit (preflight name n) s, Ok tt) ∧
  (write_output output file name label s).1
  = wrote (if String.eqb (extension name) "csv"
           then match dict_get output label with
                | Some tally => csv_rows tally
                | None => [Row ["user"; "contrib"]]
                end
           else [Text (encoder_of name) output]) s ∧
  preflight "-" n = [] ∧ encoder_of "-" = repr.
Proof.
  split_and!; [apply filetype_check_run | | done..].
  destruct (String.eqb_spec (extension name) "csv") as [Hext|Hext].
  - destruct (dict_get output label) as [tally|] eqn:Hget.
    + by rewrite (write_output_csv _ _ _ _ _ _ Hext Hget).
    + by rewrite (write_output_csv_missing _ _ _ _ _ Hext Hget).
  - by rewrite (write_output_whole _ _ _ _ _ Hext).
Qed.

(** X14. For an output name that does not select CSV, a run whose
    loop completes writes the whole table, every label with its tally,
    in one piece with the encoder the name selects, and ends with
    status 0. *)
Theorem other_targets_hold_whole_table
    w args s0 file stats github default s1 label output :
  extension (args_output args) ≠ "csv" →
  prepare w args initial = (s0, Ok (file, stats, github, default)) →
  process_stats w github default stats s0 = (s1, Ok (label, output)) →
  written (run w args).1 = [Text (encoder_of (args_output args)) output] ∧
  (run w args).2 = Exit 0.
Proof.
  intros Hext Hprep Hloop. pose proof (run_of_prepare _ _ _ _ _ _ _ Hprep) as Hrun.
  rewrite Hloop, (write_output_whole _ _ _ _ _ Hext) in Hrun. rewrite Hrun.
  split; [|done]. simpl. rewrite !written_emit.
  pose proof (prepare_calm _ _ _ _ Hprep) as Hc.
  by destruct (loop_written _ _ _ _ _ _ _ _ Hc Hloop) as (-> & _).
Qed.

Lemma other_targets_hold_whole_table_witness :
  written (run (demo_world (inl two_jobs)) (demo_args true "stats.JSON")).1
  = [Text repr [("a", [("alice", 3)]); ("b", [("bob", 5)])]].
Proof.
  destruct (other_targets_hold_whole_table (demo_world (inl two_jobs))
              (demo_args true "stats.JSON") _ _ _ _ _ _ _ _
              ltac:(discriminate) eq_refl eq_refl) as [Hwritten _].
  exact Hwritten.
Defined.

Lemma open_files_exact w args s s1 text file :
  open_files w args s = (s1, Ok (text, file)) →
  text = input_text w args ∧
  s1 = emit (if String.eqb (args_input args) "-"
             then [Line "no input file provided, using default!" alert]
             else []) s.
Proof.
  unfold open_files, input_text. intros H.
  apply bind_inv_ok in H as (s2 & text' & Hin & H).
  apply bind_inv_ok in H as (s3 & file' & Hout & [= <- <- <-]).
  assert (s3 = s2) as ->.
  { destruct (String.eqb (args_output args) "-"); [by injection Hout|].
    destruct (open_write w (args_output args)); [|by injection Hout].
    by apply bind_inv_ok in Hout as (? & ? & _ & [=]). }
  destruct (String.eqb (args_input args) "-").
  - apply bind_inv_ok in Hin as (? & [] & [= <-] & [= <- <-]). done.
  - destruct (open_read w (args_input args)).
    + injection Hin as <- <-. by rewrite emit_nil.
    + by apply bind_inv_ok in Hin as (? & ? & _ & [=]).
Qed.

Lemma get_github_exact w env s :
  get_github w env s
  = (emit (match dict_get env "GITHUB_AUTH_TOKEN" with
           | None =>
               [Line "using no api token is not recomended, you will get ratelimited!"
                  alert]
           | Some _ => []
           end) s,
     Ok (github_client w (dict_get env "GITHUB_AUTH_TOKEN"))).
Proof.
  unfold get_github. destruct (dict_get env "GITHUB_AUTH_TOKEN").
  - by rewrite emit_nil.
  - by step.
Qed.

(** X15. When the loop starts, the state is the starting state with
    the flag set and, unless the run is silent, a console that holds,
    in this order: the notice that the default input is used, if
    no input was named; the warnings of [filetype_check]; the warning
    that no API token is set, if the environment after [load_dotenv]
    has none; and the starting line. So every warning is out before
    the first repository is queried. The stat groups, the client and
    the default block the loop gets come from the parsed document. *)
Theorem warnings_precede_collection w args s0 file stats github default :
  prepare w args initial = (s0, Ok (file, stats, github, default)) →
  ∃ document,
    toml_loads w (input_text w args) = inl document ∧
    run_stats document = VList stats ∧
    github = run_github w document ∧
    default = run_default document ∧
    s0 = emit (prepare_lines w args document stats) (started (args_silent args)).
Proof.
  unfold prepare. intros H.
  apply bind_inv_ok in H as (? & [] & [= <-] & H).
  change (set_silent _ initial).1 with (started (args_silent args)) in H.
  apply bind_inv_ok in H as (s1 & [text file'] & Hopen & H).
  apply open_files_exact in Hopen as [-> ->].
  apply bind_inv_ok in H as (s2 & document & Hdoc & H).
  destruct (toml_loads w (input_text w args)) as [document'|e] eqn:Hload.
  2:{ by apply bind_inv_ok in Hdoc as (? & ? & _ & [=]). }
  injection Hdoc as <- <-.
  apply bind_inv_ok in H as (? & stats' & [Hstats ->]%as_list_inv & H).
  apply bind_inv_ok in H as (? & [] & Hcheck & H).
  rewrite filetype_check_run in Hcheck. injection Hcheck as <-. cbv zeta in H.
  fold (run_environ w document') in H.
  apply bind_inv_ok in H as (? & g & Hgithub & H).
  rewrite get_github_exact in Hgithub. injection Hgithub as <- <-.
  apply bind_inv_ok in H as (? & [] & [= <-] & [= <- <- <- <- <-]).
  exists document'. split_and!; [done..|].
  unfold prepare_lines. rewrite !emit_emit, <-?app_assoc. reflexivity.
Qed.

Lemma warnings_precede_collection_witness :
  console (prepare (demo_world (inl two_jobs)) (demo_args false "out.csv")
             initial).1
  = [lossy_warning; Line "[bold]starting![/bold]" None].
Proof.
  destruct (warnings_precede_collection (demo_world (inl two_jobs))
              (demo_args false "out.csv") _ _ _ _ _ eq_refl)
    as (document & Hdoc & _ & _ & _ & Hstate).
  injection Hdoc as <-. reflexivity.
Defined.
